(** * Client networking layer (src/client/networking.c)

    A shallow embedding of the client side of the raylib/enet network
    sample: the packet readers, the command handlers, the per-frame
    [Update] and the local movement clamp, with the properties the
    specification states about them.

    Modelling conventions.
    - C [int] and [size_t] values are [Z]; [size_t] arithmetic wraps at
      [2^64].  Bytes of a packet are [Byte.byte].
    - [float] and [double] values are the rationals they denote ([Q]);
      rounding, infinities and NaN are outside the model.
    - The globals of the file form the record [Globals]; the calls made to
      the enet library are appended to its field [enet].
    - Behaviour the C standard leaves undefined (an access outside the
      packet data or outside [Players], a float to [int16_t] conversion
      whose integral part does not fit) ends the run in [Undefined],
      carrying the globals reached at that point. *)

From Stdlib Require Import ZArith QArith Qround Lia Lqa Bool List.
From Stdlib Require Import Strings.Byte Strings.String.
From stdpp Require Import base list.
Import ListNotations.

Local Open Scope Z_scope.

(** ** Data *)

(** raylib's [Vector2]. *)
Record Vector2 := mkVector2 { x : Q; y : Q }.

Record RemotePlayer := mkRemotePlayer {
  Active : bool;
  Position : Vector2
}.

(** An enet packet: [data] holds exactly [dataLength] bytes. *)
Record ENetPacket := mkPacket {
  data : list byte;
  flags : Z
}.

Definition dataLength (packet : ENetPacket) : Z := Z.of_nat (length (data packet)).

Definition ENET_PACKET_FLAG_RELIABLE : Z := 1.

Definition enet_packet_create (buffer : list byte) (len : Z) (fl : Z) : ENetPacket :=
  {| data := take (Z.to_nat len) buffer; flags := fl |}.

Definition ENetPeer := nat.

(** What [enet_host_service] can put in [Event]. *)
Inductive ENetEvent :=
| ENET_EVENT_TYPE_NONE
| ENET_EVENT_TYPE_CONNECT
| ENET_EVENT_TYPE_DISCONNECT
| ENET_EVENT_TYPE_RECEIVE (packet : ENetPacket)
| ENET_EVENT_TYPE_DISCONNECT_TIMEOUT.

(** Calls into the transport that [Update] makes. *)
Inductive Call :=
| enet_peer_send (peer : ENetPeer) (channel : Z) (packet : ENetPacket)
| enet_packet_destroy (packet : ENetPacket).

Record Globals := mkGlobals {
  LocalPlayerId : Z;
  server : option ENetPeer;
  LastInputSend : Q;
  Players : list RemotePlayer;
  enet : list Call
}.

Definition set_LocalPlayerId (v : Z) (g : Globals) : Globals :=
  {| LocalPlayerId := v; server := server g; LastInputSend := LastInputSend g;
     Players := Players g; enet := enet g |}.

Definition set_server (v : option ENetPeer) (g : Globals) : Globals :=
  {| LocalPlayerId := LocalPlayerId g; server := v; LastInputSend := LastInputSend g;
     Players := Players g; enet := enet g |}.

Definition set_LastInputSend (v : Q) (g : Globals) : Globals :=
  {| LocalPlayerId := LocalPlayerId g; server := server g; LastInputSend := v;
     Players := Players g; enet := enet g |}.

Definition set_Players (v : list RemotePlayer) (g : Globals) : Globals :=
  {| LocalPlayerId := LocalPlayerId g; server := server g; LastInputSend := LastInputSend g;
     Players := v; enet := enet g |}.

Definition add_call (c : Call) (g : Globals) : Globals :=
  {| LocalPlayerId := LocalPlayerId g; server := server g; LastInputSend := LastInputSend g;
     Players := Players g; enet := enet g ++ [c] |}.

(** The commands, as the values of the enum [NetworkCommands]. *)
Definition AcceptPlayer : Z := 1.
Definition AddPlayer : Z := 2.
Definition RemovePlayer : Z := 3.
Definition UpdatePlayer : Z := 4.
Definition UpdateInput : Z := 5.

(** ** Undefined behaviour and the monad of the embedding *)

Inductive UB :=
| PacketOutOfBounds (index : Z)
| PlayersOutOfBounds (index : Z)
| Int16CastOutOfRange (value : Q).

Inductive Result (A : Type) :=
| Ok (a : A) (g : Globals)
| Undefined (u : UB) (g : Globals).
Arguments Ok {A} a g.
Arguments Undefined {A} u g.

Definition M (A : Type) := Globals -> Result A.

Definition ret {A} (a : A) : M A := fun g => Ok a g.

Definition bind {A B} (m : M A) (k : A -> M B) : M B :=
  fun g => match m g with
           | Ok a g' => k a g'
           | Undefined u g' => Undefined u g'
           end.

Definition undefined {A} (u : UB) : M A := fun g => Undefined u g.
Definition gets {A} (f : Globals -> A) : M A := fun g => Ok (f g) g.
Definition modify (f : Globals -> Globals) : M unit := fun g => Ok tt (f g).

Notation "'do' v <- m ;; k" := (bind m (fun v => k))
  (at level 10, v binder, m at level 99, k at level 200).

(** The globals a run ended with, defined or not. *)
Definition final {A} (r : Result A) : Globals :=
  match r with Ok _ g => g | Undefined _ g => g end.

Definition is_Ok {A} (r : Result A) : bool :=
  match r with Ok _ _ => true | Undefined _ _ => false end.

(** ** Numbers *)

Definition Qgtb (a b : Q) : bool := negb (Qle_bool a b).
Definition Qltb (a b : Q) : bool := negb (Qle_bool b a).

(** [double InputUpdateInterval = 1.0f / 20.0f]. *)
Definition InputUpdateInterval : Q := (1 / 20)%Q.

(** Initial value of [LastInputSend]. *)
Definition LastInputSend_init : Q := (-100)%Q.

Definition SIZE_MAX : Z := 2 ^ 64 - 1.
Definition size_t_add (a b : Z) : Z := (a + b) mod (SIZE_MAX + 1).

Definition INT16_MIN : Z := -32768.
Definition INT16_MAX : Z := 32767.

(** Integral part of a float, rounding towards zero. *)
Definition Qtruncate (q : Q) : Z := Z.quot (Qnum q) (QDen q).

(** [(int16_t)v] for a float [v]. *)
Definition cast_int16 (v : Q) : M Z :=
  let t := Qtruncate v in
  if (INT16_MIN <=? t) && (t <=? INT16_MAX) then ret t
  else undefined (Int16CastOutOfRange v).

Definition byte_value (b : byte) : Z := Z.of_N (Byte.to_N b).

Definition byte_of_Z (z : Z) : byte :=
  match Byte.of_N (Z.to_N (z mod 256)) with
  | Some b => b
  | None => x00
  end.

(** A 16-bit pattern read as an [int16_t]. *)
Definition to_int16 (u : Z) : Z := if u <? 32768 then u else u - 65536.

Inductive ByteOrder := LittleEndian | BigEndian.

Definition int16_of_bytes (order : ByteOrder) (b0 b1 : Z) : Z :=
  match order with
  | LittleEndian => to_int16 (b0 + 256 * b1)
  | BigEndian => to_int16 (256 * b0 + b1)
  end.

Definition bytes_of_int16 (order : ByteOrder) (v : Z) : list byte :=
  let u := v mod 65536 in
  match order with
  | LittleEndian => [byte_of_Z (u mod 256); byte_of_Z (u / 256)]
  | BigEndian => [byte_of_Z (u / 256); byte_of_Z (u mod 256)]
  end.

(** ** The code *)

Section Client.

(** Constants of [networking.h] and the byte order of the host. *)
Variable MAX_PLAYERS : Z.
Variables FieldSizeWidth FieldSizeHeight PlayerSize : Q.
Variable host_order : ByteOrder.

(** [RemotePlayer Players[MAX_PLAYERS] = { 0 }] and the other initialisers. *)
Definition Globals_init : Globals :=
  {| LocalPlayerId := -1; server := None; LastInputSend := LastInputSend_init;
     Players := replicate (Z.to_nat MAX_PLAYERS)
                  {| Active := false; Position := {| x := 0; y := 0 |} |};
     enet := [] |}.

(** [Players] has [MAX_PLAYERS] elements. *)
Definition Players_sized (g : Globals) : Prop :=
  length (Players g) = Z.to_nat MAX_PLAYERS.

(** [ptr[index]] on the data of a packet. *)
Definition load_byte (packet : ENetPacket) (index : Z) : M Z :=
  if index <? 0 then undefined (PacketOutOfBounds index)
  else match data packet !! Z.to_nat index with
       | Some b => ret (byte_value b)
       | None => undefined (PacketOutOfBounds index)
       end.

(** [*(int16_t* )ptr] at [index]. *)
Definition load_int16 (packet : ENetPacket) (index : Z) : M Z :=
  do b0 <- load_byte packet index ;;
  do b1 <- load_byte packet (index + 1) ;;
  ret (int16_of_bytes host_order b0 b1).

(** The readers return the value read and the updated [*offset]. *)
Definition ReadByte (packet : ENetPacket) (offset : Z) : M (Z * Z) :=
  if offset >? dataLength packet then ret (0, offset)
  else
    do v <- load_byte packet offset ;;
    ret (v, size_t_add offset 1).

Definition ReadShort (packet : ENetPacket) (offset : Z) : M (Z * Z) :=
  if offset >? dataLength packet then ret (0, offset)
  else
    let ptr := offset in
    let offset := size_t_add offset 2 in
    do v <- load_int16 packet ptr ;;
    ret (v, offset).

Definition ReadPosition (packet : ENetPacket) (offset : Z) : M (Vector2 * Z) :=
  do '(px, offset) <- ReadShort packet offset ;;
  do '(py, offset) <- ReadShort packet offset ;;
  ret ({| x := inject_Z px; y := inject_Z py |}, offset).

(** [Players[index]] as an rvalue and as an lvalue. *)
Definition Players_at (index : Z) : M RemotePlayer := fun g =>
  if index <? 0 then Undefined (PlayersOutOfBounds index) g
  else match Players g !! Z.to_nat index with
       | Some p => Ok p g
       | None => Undefined (PlayersOutOfBounds index) g
       end.

Definition Players_assign (index : Z) (f : RemotePlayer -> RemotePlayer) : M unit :=
  do p <- Players_at index ;;
  modify (fun g => set_Players (<[Z.to_nat index := f p]> (Players g)) g).

Definition set_Active (b : bool) (p : RemotePlayer) : RemotePlayer :=
  {| Active := b; Position := Position p |}.
Definition set_Position (v : Vector2) (p : RemotePlayer) : RemotePlayer :=
  {| Active := Active p; Position := v |}.

(** The handlers return the updated [*offset]. *)
Definition HandleAddPlayer (packet : ENetPacket) (offset : Z) : M Z :=
  do '(remotePlayer, offset) <- ReadByte packet offset ;;
  do local <- gets LocalPlayerId ;;
  if (remotePlayer >=? MAX_PLAYERS) || (remotePlayer =? local) then ret offset
  else
    do _ <- Players_assign remotePlayer (set_Active true) ;;
    do '(pos, offset) <- ReadPosition packet offset ;;
    do _ <- Players_assign remotePlayer (set_Position pos) ;;
    ret offset.

Definition HandleRemovePlayer (packet : ENetPacket) (offset : Z) : M Z :=
  do '(remotePlayer, offset) <- ReadByte packet offset ;;
  do local <- gets LocalPlayerId ;;
  if (remotePlayer >=? MAX_PLAYERS) || (remotePlayer =? local) then ret offset
  else
    do _ <- Players_assign remotePlayer (set_Active false) ;;
    ret offset.

Definition HandleUpdatePlayer (packet : ENetPacket) (offset : Z) : M Z :=
  do '(remotePlayer, offset) <- ReadByte packet offset ;;
  do local <- gets LocalPlayerId ;;
  if (remotePlayer >=? MAX_PLAYERS) || (remotePlayer =? local) then ret offset
  else
    do p <- Players_at remotePlayer ;;
    if negb (Active p) then ret offset
    else
      do '(pos, offset) <- ReadPosition packet offset ;;
      do _ <- Players_assign remotePlayer (set_Position pos) ;;
      ret offset.

(** The five bytes [Update] packs for [UpdateInput] (lines 243 to 246). *)
Definition UpdateInput_buffer (index : Z) : M (list byte) :=
  do p <- Players_at index ;;
  do vx <- cast_int16 (x (Position p)) ;;
  do p <- Players_at index ;;
  do vy <- cast_int16 (y (Position p)) ;;
  ret (byte_of_Z UpdateInput :: bytes_of_int16 host_order vx ++ bytes_of_int16 host_order vy).

(** First half of [Update]: the throttled input update. *)
Definition send_input (peer : ENetPeer) (now : Q) : M unit :=
  do local <- gets LocalPlayerId ;;
  do last <- gets LastInputSend ;;
  if (local >=? 0) && Qgtb (now - last) InputUpdateInterval then
    do buffer <- UpdateInput_buffer local ;;
    let packet := enet_packet_create buffer 5 ENET_PACKET_FLAG_RELIABLE in
    do _ <- modify (add_call (enet_peer_send peer 0 packet)) ;;
    modify (set_LastInputSend now)
  else ret tt.

(** How a block inside the [switch] of [Update] is left. *)
Inductive Flow := Next | Break.

(** The body of [if (command == AcceptPlayer)]. *)
Definition accept (packet : ENetPacket) (offset : Z) : M Flow :=
  do '(id, offset) <- ReadByte packet offset ;;
  do _ <- modify (set_LocalPlayerId id) ;;
  do local <- gets LocalPlayerId ;;
  if (local <? 0) || (local >? MAX_PLAYERS) then
    do _ <- modify (set_LocalPlayerId (-1)) ;;
    ret Break
  else
    do _ <- modify (set_LastInputSend (- InputUpdateInterval)%Q) ;;
    do local <- gets LocalPlayerId ;;
    do _ <- Players_assign local (set_Active true) ;;
    do local <- gets LocalPlayerId ;;
    do _ <- Players_assign local (set_Position {| x := 100; y := 100 |}) ;;
    ret Next.

(** The inner [switch (command)] of the accepted state. *)
Definition dispatch (command : Z) (packet : ENetPacket) (offset : Z) : M Flow :=
  if command =? AddPlayer then (do _ <- HandleAddPlayer packet offset ;; ret Next)
  else if command =? RemovePlayer then (do _ <- HandleRemovePlayer packet offset ;; ret Next)
  else if command =? UpdatePlayer then (do _ <- HandleUpdatePlayer packet offset ;; ret Next)
  else ret Next.

(** [case ENET_EVENT_TYPE_RECEIVE]. *)
Definition receive (packet : ENetPacket) : M unit :=
  if dataLength packet <? 1 then ret tt
  else
    do '(command, offset) <- ReadByte packet 0 ;;
    do local <- gets LocalPlayerId ;;
    do flow <- (if local =? -1 then
               if command =? AcceptPlayer then accept packet offset else ret Next
             else dispatch command packet offset) ;;
    match flow with
    | Break => ret tt
    | Next => modify (add_call (enet_packet_destroy packet))
    end.

(** Second half of [Update]: [polled] is [Some Event] when
    [enet_host_service] returned a positive value. *)
Definition on_event (polled : option ENetEvent) : M unit :=
  match polled with
  | Some (ENET_EVENT_TYPE_RECEIVE packet) => receive packet
  | Some ENET_EVENT_TYPE_DISCONNECT =>
      do _ <- modify (set_server None) ;;
      modify (set_LocalPlayerId (-1))
  | _ => ret tt
  end.

(** [Update (now)]. *)
Definition Update (now : Q) (polled : option ENetEvent) : M unit :=
  do srv <- gets server ;;
  match srv with
  | None => ret tt
  | Some peer =>
    do _ <- send_input peer now ;;
    on_event polled
  end.

Definition Connected : M bool :=
  do srv <- gets server ;;
  do local <- gets LocalPlayerId ;;
  ret (bool_decide (srv <> None) && (local >=? 0)).

Definition GetLocalPlayerId : M Z := gets LocalPlayerId.

(** raymath's [Vector2Add]. *)
Definition Vector2Add (v1 v2 : Vector2) : Vector2 :=
  {| x := (x v1 + x v2)%Q; y := (y v1 + y v2)%Q |}.

Definition set_x (v : Q) (p : RemotePlayer) : RemotePlayer :=
  set_Position {| x := v; y := y (Position p) |} p.
Definition set_y (v : Q) (p : RemotePlayer) : RemotePlayer :=
  set_Position {| x := x (Position p); y := v |} p.

Definition UpdateLocalPlayer (movementDelta : Vector2) : M unit :=
  do local <- gets LocalPlayerId ;;
  if local <? 0 then ret tt
  else
    do p <- Players_at local ;;
    do _ <- Players_assign local (set_Position (Vector2Add (Position p) movementDelta)) ;;
    do p <- Players_at local ;;
    do _ <- (if Qltb (x (Position p)) 0 then Players_assign local (set_x 0) else ret tt) ;;
    do p <- Players_at local ;;
    do _ <- (if Qltb (y (Position p)) 0 then Players_assign local (set_y 0) else ret tt) ;;
    do p <- Players_at local ;;
    do _ <- (if Qgtb (x (Position p)) (FieldSizeWidth - PlayerSize)
     then Players_assign local (set_x (FieldSizeWidth - PlayerSize)%Q) else ret tt) ;;
    do p <- Players_at local ;;
    (if Qgtb (y (Position p)) (FieldSizeHeight - PlayerSize)
     then Players_assign local (set_y (FieldSizeHeight - PlayerSize)%Q) else ret tt).

(** [GetPlayerPos]: [Some pos] stands for [true] with [*pos] written. *)
Definition GetPlayerPos (id : Z) : M (option Vector2) :=
  if (id <? 0) || (id >=? MAX_PLAYERS) then ret None
  else
    do p <- Players_at id ;;
    if negb (Active p) then ret None
    else
      do p <- Players_at id ;;
      ret (Some (Position p)).

(** Successive frames at one timestamp. *)
Fixpoint Updates (now : Q) (polled : list (option ENetEvent)) : M unit :=
  match polled with
  | [] => ret tt
  | e :: rest => do _ <- Update now e ;; Updates now rest
  end.

End Client.

(** ** Vocabulary of the statements *)

(** [preserves R m]: every run of [m], defined or not, ends in globals
    related by [R] to the ones it started from. *)
Definition preserves {A} (R : relation Globals) (m : M A) : Prop :=
  forall g, R g (final (m g)).

(** [keeps f] relates globals that agree on the observation [f]. *)
Definition keeps {B} (f : Globals -> B) : relation Globals :=
  fun g g' => f g' = f g.

(** Computations that only read. *)
Definition reads_only {A} (m : M A) : Prop := preserves (keeps (fun g => g)) m.

(** The log of transport calls only grows. *)
Definition extends : relation Globals :=
  fun g g' => exists log, enet g' = enet g ++ log.

(** Observations that no assignment to a slot can change. *)
Definition ignores_slots {B} (f : Globals -> B) : Prop :=
  forall g i p, f (set_Players (<[i := p]> (Players g)) g) = f g.

(** [table_fault r]: the run [r] ended on an access outside [Players]. *)
Definition table_fault {A} (r : Result A) : bool :=
  match r with
  | Undefined (PlayersOutOfBounds _) _ => true
  | _ => false
  end.

(** Packets are compared by their bytes and flags. *)
Definition packet_eq_dec (p q : ENetPacket) : {p = q} + {p <> q}.
Proof.
  decide equality; [apply Z.eq_dec | apply List.list_eq_dec, Byte.byte_eq_dec].
Defined.

(** Number of [enet_peer_send] calls in a log. *)
Fixpoint sends (log : list Call) : nat :=
  match log with
  | [] => 0
  | enet_peer_send _ _ _ :: log => S (sends log)
  | enet_packet_destroy _ :: log => sends log
  end.

(** Number of times [packet] was handed to [enet_packet_destroy]. *)
Fixpoint releases (packet : ENetPacket) (log : list Call) : nat :=
  match log with
  | [] => 0
  | enet_packet_destroy p :: log =>
      ((if packet_eq_dec p packet then 1 else 0) + releases packet log)%nat
  | enet_peer_send _ _ _ :: log => releases packet log
  end.

(** The condition under which [Update] sends the local position. *)
Definition input_due (now : Q) (g : Globals) : Prop :=
  0 <= LocalPlayerId g /\ (InputUpdateInterval < now - LastInputSend g)%Q.

(** After a send at [now], frames at the same timestamp find the session
    either disconnected or stamped with [now]. *)
Definition stamped (now : Q) (g : Globals) : Prop :=
  server g = None \/ (LocalPlayerId g <> -1 /\ LastInputSend g = now).

(** The globals after the server's [AcceptPlayer] for [id] was handled. *)
Definition accepted_as (id : Z) (packet : ENetPacket) (g : Globals) : Globals :=
  {| LocalPlayerId := id;
     server := server g;
     LastInputSend := (- InputUpdateInterval)%Q;
     Players := <[Z.to_nat id :=
                   {| Active := true; Position := {| x := 100; y := 100 |} |}]> (Players g);
     enet := enet g ++ [enet_packet_destroy packet] |}.

(** The [UpdateInput] packet for the integer position [(vx, vy)]. *)
Definition UpdateInput_packet (order : ByteOrder) (vx vy : Z) : ENetPacket :=
  {| data := x05 :: bytes_of_int16 order vx ++ bytes_of_int16 order vy;
     flags := ENET_PACKET_FLAG_RELIABLE |}.

(** Skip the tag, then read x and y with [ReadShort]. *)
Definition decode_UpdateInput (order : ByteOrder) (packet : ENetPacket) : M (Z * Z) :=
  do '(_, offset) <- ReadByte packet 0 ;;
  do '(vx, offset) <- ReadShort order packet offset ;;
  do '(vy, offset) <- ReadShort order packet offset ;;
  ret (vx, vy).

(** The packet packed from slot [index] decodes to the truncated
    components of the position in that slot. *)
Definition round_trips (order : ByteOrder) (index : Z) (g : Globals) : Prop :=
  exists p buffer,
    Players g !! Z.to_nat index = Some p /\
    UpdateInput_buffer order index g = Ok buffer g /\
    decode_UpdateInput order (enet_packet_create buffer 5 ENET_PACKET_FLAG_RELIABLE) g
    = Ok (Qtruncate (x (Position p)), Qtruncate (y (Position p))) g.


(** The globals with slot [i] replaced. *)
Definition with_slot (i : nat) (q : RemotePlayer) (g : Globals) : Globals :=
  set_Players (<[i := q]> (Players g)) g.

(** C9 as stated: after a disconnect event the id is unset, the peer is
    gone and [LastInputSend] is back at its initial value. *)
Definition disconnect_resets_session (MAX_PLAYERS : Z) (order : ByteOrder) : Prop :=
  forall now peer g g',
    server g = Some peer ->
    Update MAX_PLAYERS order now (Some ENET_EVENT_TYPE_DISCONNECT) g = Ok tt g' ->
    LocalPlayerId g' = -1 /\ server g' = None /\
    (LastInputSend g' == LastInputSend_init)%Q.

(** A table whose only slot is at (40000, 0). *)
Definition far_away : Globals :=
  {| LocalPlayerId := 0; server := Some 1%nat; LastInputSend := 0;
     Players := [{| Active := true; Position := {| x := 40000; y := 0 |} |}];
     enet := [] |}.

(** A joined session, eight slots, whose last input update went out at 5. *)
Definition sent_at_5 : Globals :=
  {| LocalPlayerId := 3; server := Some 1%nat; LastInputSend := 5;
     Players := Players (Globals_init 8); enet := [] |}.

(** Eight slots, a connection in progress, no id yet. *)
Definition connecting : Globals := set_server (Some 1%nat) (Globals_init 8).

(** The server's [AcceptPlayer] for the ids 3, 8 and 9, and an empty packet. *)
Definition accept_3 : ENetPacket := {| data := [x01; x03]; flags := 0 |}.
Definition accept_8 : ENetPacket := {| data := [x01; x08]; flags := 0 |}.
Definition accept_9 : ENetPacket := {| data := [x01; x09]; flags := 0 |}.
Definition no_bytes : ENetPacket := {| data := []; flags := 0 |}.

(** The session after [accept_3]. *)
Definition joined_3 : Globals := accepted_as 3 accept_3 connecting.

(** ** Connecting and disconnecting

    [Connect] and [Disconnect] also use the globals [client] and [address]
    and make calls of their own into enet; these are kept beside [Globals]
    in [Process].  What enet returns is an argument of the model. *)

Definition ENetHost := nat.

Record ENetAddress := mkAddress { host : Z; port : Z }.

(** Calls into enet made by [Connect] and [Disconnect]. *)
Inductive LifecycleCall :=
| enet_initialize
| enet_host_create (peerCount channelLimit incomingBandwidth outgoingBandwidth : Z)
| enet_address_set_host (name : string)
| enet_host_connect (h : option ENetHost) (a : ENetAddress) (channelCount data : Z)
| enet_peer_disconnect (peer : ENetPeer) (data : Z)
| enet_host_destroy (h : ENetHost)
| enet_deinitialize.

Record Process := mkProcess {
  globals : Globals;
  client : option ENetHost;
  address : ENetAddress;
  lifecycle : list LifecycleCall
}.

(** The process as the initialisers of the file leave it. *)
Definition Process_init (MAX_PLAYERS : Z) : Process :=
  {| globals := Globals_init MAX_PLAYERS; client := None;
     address := {| host := 0; port := 0 |}; lifecycle := [] |}.

(** [Connect ()]: [created] is what [enet_host_create] returns, [resolved]
    the host [enet_address_set_host] writes into [address], [connected]
    what [enet_host_connect] returns. *)
Definition Connect (created : option ENetHost) (resolved : Z)
    (connected : option ENetPeer) (p : Process) : Process :=
  let a := {| host := resolved; port := 4545 |} in
  {| globals := set_server connected (globals p);
     client := created;
     address := a;
     lifecycle := lifecycle p ++
       [enet_initialize; enet_host_create 1 1 0 0;
        enet_address_set_host "127.0.0.1"; enet_host_connect created a 1 0] |}.

(** [Disconnect ()]. *)
Definition Disconnect (p : Process) : Process :=
  {| globals := set_server None (globals p);
     client := None;
     address := address p;
     lifecycle := lifecycle p ++
       match server (globals p) with
       | Some peer => [enet_peer_disconnect peer 0]
       | None => []
       end ++
       match client p with
       | Some h => [enet_host_destroy h]
       | None => []
       end ++
       [enet_deinitialize] |}.

(** ** Vocabulary of the further properties *)

(** The slot of player [L], if the table has one. *)
Definition slot_of (L : Z) (g : Globals) : option RemotePlayer :=
  Players g !! Z.to_nat L.

(** What holds of the globals in every state the client can reach: the
    table has [MAX_PLAYERS] slots, and the id is unset or lies between 0
    and [MAX_PLAYERS], the upper end included. *)
Definition session_invariant (MAX_PLAYERS : Z) (g : Globals) : Prop :=
  Players_sized MAX_PLAYERS g /\
  (LocalPlayerId g = -1 \/ 0 <= LocalPlayerId g <= MAX_PLAYERS).

(** Successive frames, each with its timestamp and what it polls. *)
Fixpoint Frames (MAX_PLAYERS : Z) (order : ByteOrder)
    (frames : list (Q * option ENetEvent)) : M unit :=
  match frames with
  | [] => ret tt
  | (now, polled) :: rest =>
      do _ <- Update MAX_PLAYERS order now polled ;; Frames MAX_PLAYERS order rest
  end.

(** Packets for a player 4: [AddPlayer] and [UpdatePlayer] at (16, -1) in
    little-endian order, [RemovePlayer], a bare [AddPlayer] tag, and the
    server's [AcceptPlayer] for the id 4. *)
Definition add_4 : ENetPacket :=
  {| data := [x02; x04; x10; x00; xff; xff]; flags := 0 |}.
Definition update_4 : ENetPacket :=
  {| data := [x04; x04; x10; x00; xff; xff]; flags := 0 |}.
Definition remove_4 : ENetPacket := {| data := [x03; x04]; flags := 0 |}.
Definition add_alone : ENetPacket := {| data := [x02]; flags := 0 |}.
Definition accept_4 : ENetPacket := {| data := [x01; x04]; flags := 0 |}.

(** A process whose session is [joined_3]. *)
Definition joined_process : Process :=
  {| globals := joined_3; client := Some 7%nat;
     address := {| host := 1; port := 4545 |}; lifecycle := [] |}.

(** The slot every player starts with. *)
Definition empty_slot : RemotePlayer :=
  {| Active := false; Position := {| x := 0; y := 0 |} |}.

(** The slot of the local player of [joined_3]. *)
Definition spawn_slot : RemotePlayer :=
  {| Active := true; Position := {| x := 100; y := 100 |} |}.


(** ** Basic facts about the numbers and the bytes *)

Lemma Qgtb_true (a b : Q) : Qgtb a b = true <-> (b < a)%Q.
Proof.
  unfold Qgtb. rewrite negb_true_iff, <- not_true_iff_false, Qle_bool_iff.
  split; [apply Qnot_le_lt | apply Qlt_not_le].
Qed.




Lemma byte_value_range (b : byte) : 0 <= byte_value b <= 255.
Proof. unfold byte_value. pose proof (Byte.to_N_bounded b). lia. Qed.

Lemma byte_value_of_Z (z : Z) : byte_value (byte_of_Z z) = z mod 256.
Proof.
  unfold byte_value, byte_of_Z.
  assert (Hz : 0 <= z mod 256 < 256) by (apply Z.mod_pos_bound; lia).
  destruct (Byte.of_N (Z.to_N (z mod 256))) as [b|] eqn:E.
  - apply Byte.to_of_N in E. rewrite E. lia.
  - apply Byte.of_N_None_iff in E. lia.
Qed.

Lemma to_int16_mod (v : Z) :
  INT16_MIN <= v <= INT16_MAX -> to_int16 (v mod 65536) = v.
Proof.
  unfold INT16_MIN, INT16_MAX, to_int16. intros Hv.
  destruct (v mod 65536 <? 32768) eqn:E; [apply Z.ltb_lt in E | apply Z.ltb_ge in E];
    Z.div_mod_to_equations; lia.
Qed.

(** ** What a computation leaves alone *)

#[local] Instance keeps_refl {B} (f : Globals -> B) : Reflexive (keeps f).
Proof. intros g. reflexivity. Qed.

#[local] Instance keeps_trans {B} (f : Globals -> B) : Transitive (keeps f).
Proof. intros g1 g2 g3 H12 H23. unfold keeps in *. congruence. Qed.

Section Preservation.
Context (R : relation Globals) `{!Reflexive R} `{!Transitive R}.

Lemma preserves_ret {A} (a : A) : preserves R (ret a).
Proof. intros g. simpl. reflexivity. Qed.

Lemma preserves_gets {A} (f : Globals -> A) : preserves R (gets f).
Proof. intros g. simpl. reflexivity. Qed.

Lemma preserves_undefined {A} (u : UB) : preserves R (@undefined A u).
Proof. intros g. simpl. reflexivity. Qed.

Lemma preserves_bind {A B} (m : M A) (k : A -> M B) :
  preserves R m -> (forall a, preserves R (k a)) -> preserves R (bind m k).
Proof.
  intros Hm Hk g. unfold bind. specialize (Hm g).
  destruct (m g) as [a g'|u g']; simpl in *.
  - transitivity g'; [exact Hm | apply Hk].
  - exact Hm.
Qed.

Lemma preserves_modify (f : Globals -> Globals) :
  (forall g, R g (f g)) -> preserves R (modify f).
Proof. intros H g. apply H. Qed.

Lemma reads_only_preserves {A} (m : M A) : reads_only m -> preserves R m.
Proof. intros H g. rewrite (H g). reflexivity. Qed.

End Preservation.

Create HintDb reads discriminated.
Create HintDb preserve discriminated.

Ltac preserve_step :=
  lazymatch goal with
  | |- preserves _ (ret _) => apply preserves_ret; typeclasses eauto
  | |- preserves _ (gets _) => apply preserves_gets; typeclasses eauto
  | |- preserves _ (undefined _) => apply preserves_undefined; typeclasses eauto
  | |- preserves _ (modify _) =>
      apply preserves_modify; intros ?; unfold keeps; solve [auto]
  | |- preserves _ (bind _ _) => apply preserves_bind; [typeclasses eauto | | intros ?]
  | |- preserves _ (match ?v with (_, _) => _ end) => destruct v
  | |- preserves _ (if ?c then _ else _) => destruct c
  | |- preserves _ (match ?v with _ => _ end) => destruct v
  | |- preserves _ _ =>
      first [ solve [apply reads_only_preserves; [typeclasses eauto | auto with reads]]
            | solve [auto with preserve] ]
  end.

Ltac preserve := repeat preserve_step.

Lemma reads_only_load_byte packet index : reads_only (load_byte packet index).
Proof. unfold load_byte, reads_only. preserve. Qed.
#[local] Hint Resolve reads_only_load_byte : reads.

Lemma reads_only_load_int16 order packet index :
  reads_only (load_int16 order packet index).
Proof. unfold load_int16, reads_only. preserve. Qed.
#[local] Hint Resolve reads_only_load_int16 : reads.

Lemma reads_only_ReadByte packet offset : reads_only (ReadByte packet offset).
Proof. unfold ReadByte, reads_only. preserve. Qed.
#[local] Hint Resolve reads_only_ReadByte : reads.

Lemma reads_only_ReadShort order packet offset :
  reads_only (ReadShort order packet offset).
Proof. unfold ReadShort, reads_only. preserve. Qed.
#[local] Hint Resolve reads_only_ReadShort : reads.

Lemma reads_only_ReadPosition order packet offset :
  reads_only (ReadPosition order packet offset).
Proof. unfold ReadPosition, reads_only. preserve. Qed.
#[local] Hint Resolve reads_only_ReadPosition : reads.

Lemma reads_only_Players_at index : reads_only (Players_at index).
Proof.
  intros g. unfold Players_at.
  destruct (index <? 0); [reflexivity|].
  destruct (Players g !! Z.to_nat index); reflexivity.
Qed.
#[local] Hint Resolve reads_only_Players_at : reads.

Lemma reads_only_cast_int16 v : reads_only (cast_int16 v).
Proof. unfold cast_int16, reads_only. preserve. Qed.
#[local] Hint Resolve reads_only_cast_int16 : reads.

(** A run that only reads returns the globals it was given. *)
Lemma reads_only_Ok {A} (m : M A) g a g' :
  reads_only m -> m g = Ok a g' -> g' = g.
Proof. intros H E. specialize (H g). rewrite E in H. exact H. Qed.

Lemma reads_only_Undefined {A} (m : M A) g u g' :
  reads_only m -> m g = Undefined u g' -> g' = g.
Proof. intros H E. specialize (H g). rewrite E in H. exact H. Qed.

(** ** The readers *)

Lemma lookup_data_lt packet index b :
  0 <= index -> data packet !! Z.to_nat index = Some b -> index < dataLength packet.
Proof.
  intros H0 E. apply lookup_lt_Some in E. unfold dataLength. lia.
Qed.

Lemma lookup_data_ge packet index :
  dataLength packet <= index -> data packet !! Z.to_nat index = None.
Proof.
  intros H. apply lookup_ge_None. unfold dataLength in H. lia.
Qed.

Lemma load_byte_in packet index b g :
  0 <= index -> data packet !! Z.to_nat index = Some b ->
  load_byte packet index g = Ok (byte_value b) g.
Proof.
  intros H0 E. unfold load_byte.
  destruct (index <? 0) eqn:L; [apply Z.ltb_lt in L; lia|].
  rewrite E. reflexivity.
Qed.

Lemma load_byte_out packet index g :
  dataLength packet <= index ->
  load_byte packet index g = Undefined (PacketOutOfBounds index) g.
Proof.
  intros H. unfold load_byte.
  destruct (index <? 0); [reflexivity|].
  rewrite lookup_data_ge by exact H. reflexivity.
Qed.

Lemma load_byte_shape packet index g :
  (exists v, 0 <= v <= 255 /\ load_byte packet index g = Ok v g) \/
  load_byte packet index g = Undefined (PacketOutOfBounds index) g.
Proof.
  unfold load_byte. destruct (index <? 0); [right; reflexivity|].
  destruct (data packet !! Z.to_nat index) as [b|]; [left|right; reflexivity].
  exists (byte_value b). split; [apply byte_value_range | reflexivity].
Qed.

(** Past the end the guard of [ReadByte] answers 0 and leaves the offset. *)
Lemma ReadByte_past packet offset g :
  dataLength packet < offset -> ReadByte packet offset g = Ok (0, offset) g.
Proof.
  intros H. unfold ReadByte.
  destruct (offset >? dataLength packet) eqn:E; [reflexivity|].
  rewrite Z.gtb_ltb in E. apply Z.ltb_ge in E. lia.
Qed.

Lemma ReadByte_in packet offset b g :
  0 <= offset -> data packet !! Z.to_nat offset = Some b ->
  ReadByte packet offset g = Ok (byte_value b, size_t_add offset 1) g.
Proof.
  intros H0 E. pose proof (lookup_data_lt _ _ _ H0 E) as Hlt. unfold ReadByte.
  destruct (offset >? dataLength packet) eqn:G.
  - rewrite Z.gtb_ltb in G. apply Z.ltb_lt in G. lia.
  - unfold bind. rewrite (load_byte_in _ _ b) by assumption. reflexivity.
Qed.

(** At the end the guard lets the read through. *)
Lemma ReadByte_at_end packet g :
  ReadByte packet (dataLength packet) g
  = Undefined (PacketOutOfBounds (dataLength packet)) g.
Proof.
  unfold ReadByte. rewrite Z.gtb_ltb, Z.ltb_irrefl.
  unfold bind. rewrite load_byte_out by lia. reflexivity.
Qed.

Lemma ReadByte_shape packet offset g :
  (exists v off, 0 <= v <= 255 /\ ReadByte packet offset g = Ok (v, off) g) \/
  (exists i, ReadByte packet offset g = Undefined (PacketOutOfBounds i) g).
Proof.
  unfold ReadByte. destruct (offset >? dataLength packet).
  - left. exists 0, offset. split; [lia | reflexivity].
  - unfold bind.
    destruct (load_byte_shape packet offset g) as [(v & Hv & E)|E]; rewrite E.
    + left. exists v, (size_t_add offset 1). split; [exact Hv | reflexivity].
    + right. eexists. reflexivity.
Qed.

Lemma ReadShort_past order packet offset g :
  dataLength packet < offset -> ReadShort order packet offset g = Ok (0, offset) g.
Proof.
  intros H. unfold ReadShort.
  destruct (offset >? dataLength packet) eqn:E; [reflexivity|].
  rewrite Z.gtb_ltb in E. apply Z.ltb_ge in E. lia.
Qed.

Lemma ReadShort_in order packet offset b0 b1 g :
  0 <= offset ->
  data packet !! Z.to_nat offset = Some b0 ->
  data packet !! Z.to_nat (offset + 1) = Some b1 ->
  ReadShort order packet offset g
  = Ok (int16_of_bytes order (byte_value b0) (byte_value b1), size_t_add offset 2) g.
Proof.
  intros H0 E0 E1. pose proof (lookup_data_lt _ _ _ H0 E0) as Hlt. unfold ReadShort.
  destruct (offset >? dataLength packet) eqn:G.
  - rewrite Z.gtb_ltb in G. apply Z.ltb_lt in G. lia.
  - unfold bind, load_int16, bind.
    rewrite (load_byte_in _ _ b0) by assumption.
    rewrite (load_byte_in _ _ b1) by (assumption || lia). reflexivity.
Qed.

Lemma ReadShort_at_end order packet g :
  ReadShort order packet (dataLength packet) g
  = Undefined (PacketOutOfBounds (dataLength packet)) g.
Proof.
  unfold ReadShort. rewrite Z.gtb_ltb, Z.ltb_irrefl.
  unfold bind, load_int16, bind. rewrite load_byte_out by lia. reflexivity.
Qed.

(** A short that starts on the last byte takes its second byte from
    outside the data. *)
Lemma ReadShort_last order packet g :
  1 <= dataLength packet ->
  ReadShort order packet (dataLength packet - 1) g
  = Undefined (PacketOutOfBounds (dataLength packet)) g.
Proof.
  intros H. unfold ReadShort.
  destruct (dataLength packet - 1 >? dataLength packet) eqn:G.
  - rewrite Z.gtb_ltb in G. apply Z.ltb_lt in G. lia.
  - unfold bind, load_int16, bind.
    destruct (data packet !! Z.to_nat (dataLength packet - 1)) as [b|] eqn:E.
    + rewrite (load_byte_in _ _ b) by (assumption || lia).
      replace (dataLength packet - 1 + 1) with (dataLength packet) by lia.
      rewrite load_byte_out by lia. reflexivity.
    + apply lookup_ge_None in E. unfold dataLength in *. lia.
Qed.

Lemma ReadShort_shape order packet offset g :
  (exists v off, ReadShort order packet offset g = Ok (v, off) g) \/
  (exists i, ReadShort order packet offset g = Undefined (PacketOutOfBounds i) g).
Proof.
  unfold ReadShort. destruct (offset >? dataLength packet).
  - left. exists 0, offset. reflexivity.
  - unfold bind, load_int16, bind.
    destruct (load_byte_shape packet offset g) as [(v0 & _ & E0)|E0]; rewrite E0;
      [|right; eexists; reflexivity].
    destruct (load_byte_shape packet (offset + 1) g) as [(v1 & _ & E1)|E1]; rewrite E1;
      [|right; eexists; reflexivity].
    left. eexists _, _. reflexivity.
Qed.

Lemma ReadPosition_shape order packet offset g :
  (exists pos off, ReadPosition order packet offset g = Ok (pos, off) g) \/
  (exists i, ReadPosition order packet offset g = Undefined (PacketOutOfBounds i) g).
Proof.
  unfold ReadPosition, bind.
  destruct (ReadShort_shape order packet offset g) as [(v0 & o0 & E0)|(i & E0)];
    rewrite E0; [|right; eexists; reflexivity].
  destruct (ReadShort_shape order packet o0 g) as [(v1 & o1 & E1)|(i & E1)];
    rewrite E1; [|right; eexists; reflexivity].
  left. eexists _, _. reflexivity.
Qed.

(** ** The player table *)

Section Table.
Variable MAX_PLAYERS : Z.
Variable host_order : ByteOrder.

Lemma Players_at_in index g :
  Players_sized MAX_PLAYERS g -> 0 <= index < MAX_PLAYERS ->
  exists p, Players g !! Z.to_nat index = Some p /\ Players_at index g = Ok p g.
Proof.
  intros Hs Hi. unfold Players_at.
  destruct (index <? 0) eqn:L; [apply Z.ltb_lt in L; lia|].
  destruct (Players g !! Z.to_nat index) as [p|] eqn:E.
  - exists p. split; reflexivity.
  - apply lookup_ge_None in E. unfold Players_sized in Hs. lia.
Qed.

Lemma Players_at_out index g :
  Players_sized MAX_PLAYERS g -> ~ 0 <= index < MAX_PLAYERS ->
  Players_at index g = Undefined (PlayersOutOfBounds index) g.
Proof.
  intros Hs Hi. unfold Players_at.
  destruct (index <? 0) eqn:L; [reflexivity|]. apply Z.ltb_ge in L.
  rewrite (proj2 (lookup_ge_None _ _)); [reflexivity|].
  unfold Players_sized in Hs. lia.
Qed.

Lemma Players_at_shape index g :
  (exists p, Players g !! Z.to_nat index = Some p /\ Players_at index g = Ok p g) \/
  Players_at index g = Undefined (PlayersOutOfBounds index) g.
Proof.
  unfold Players_at. destruct (index <? 0); [right; reflexivity|].
  destruct (Players g !! Z.to_nat index) as [p|]; [left; eauto | right; reflexivity].
Qed.

Lemma Players_assign_in index f g p :
  0 <= index -> Players g !! Z.to_nat index = Some p ->
  Players_assign index f g
  = Ok tt (set_Players (<[Z.to_nat index := f p]> (Players g)) g).
Proof.
  intros H0 E. unfold Players_assign, bind, Players_at.
  destruct (index <? 0) eqn:L; [apply Z.ltb_lt in L; lia|].
  rewrite E. reflexivity.
Qed.

Lemma Players_assign_out index f g :
  Players_sized MAX_PLAYERS g -> ~ 0 <= index < MAX_PLAYERS ->
  Players_assign index f g = Undefined (PlayersOutOfBounds index) g.
Proof.
  intros Hs Hi. unfold Players_assign, bind.
  rewrite Players_at_out by assumption. reflexivity.
Qed.

Lemma ignores_slots_LocalPlayerId : ignores_slots LocalPlayerId.
Proof. intros g i p. reflexivity. Qed.
Lemma ignores_slots_LastInputSend : ignores_slots LastInputSend.
Proof. intros g i p. reflexivity. Qed.
Lemma ignores_slots_server : ignores_slots server.
Proof. intros g i p. reflexivity. Qed.
Lemma ignores_slots_enet : ignores_slots enet.
Proof. intros g i p. reflexivity. Qed.
Lemma ignores_slots_length : ignores_slots (fun g => length (Players g)).
Proof. intros g i p. simpl. apply length_insert. Qed.

Lemma preserves_Players_assign {B} (f : Globals -> B) index h :
  ignores_slots f -> preserves (keeps f) (Players_assign index h).
Proof.
  intros Hf g. unfold Players_assign, bind.
  destruct (Players_at_shape index g) as [(p & _ & E)|E]; rewrite E; simpl.
  - apply Hf.
  - reflexivity.
Qed.

Section Handlers.
Context {B : Type} (f : Globals -> B) (Hf : ignores_slots f).

#[local] Hint Resolve preserves_Players_assign : preserve.
#[local] Hint Resolve Hf : preserve.

Lemma preserves_HandleAddPlayer packet offset :
  preserves (keeps f) (HandleAddPlayer MAX_PLAYERS host_order packet offset).
Proof using Hf. unfold HandleAddPlayer. preserve. Qed.

Lemma preserves_HandleRemovePlayer packet offset :
  preserves (keeps f) (HandleRemovePlayer MAX_PLAYERS packet offset).
Proof using Hf. unfold HandleRemovePlayer. preserve. Qed.

Lemma preserves_HandleUpdatePlayer packet offset :
  preserves (keeps f) (HandleUpdatePlayer MAX_PLAYERS host_order packet offset).
Proof using Hf. unfold HandleUpdatePlayer. preserve. Qed.

#[local] Hint Resolve preserves_HandleAddPlayer preserves_HandleRemovePlayer
  preserves_HandleUpdatePlayer : preserve.

Lemma preserves_dispatch command packet offset :
  preserves (keeps f) (dispatch MAX_PLAYERS host_order command packet offset).
Proof using Hf. unfold dispatch. preserve. Qed.

End Handlers.

End Table.

(** ** The joined handlers stay inside the table *)

Section TableSafety.
Variable MAX_PLAYERS : Z.
Variable host_order : ByteOrder.

Lemma Players_sized_insert g i p :
  Players_sized MAX_PLAYERS g ->
  Players_sized MAX_PLAYERS (set_Players (<[i := p]> (Players g)) g).
Proof. unfold Players_sized. simpl. rewrite length_insert. auto. Qed.

Lemma Players_assign_ok index f g :
  Players_sized MAX_PLAYERS g -> 0 <= index < MAX_PLAYERS ->
  exists p, Players g !! Z.to_nat index = Some p /\
    Players_assign index f g
    = Ok tt (set_Players (<[Z.to_nat index := f p]> (Players g)) g).
Proof.
  intros Hs Hi. destruct (Players_at_in MAX_PLAYERS index g Hs Hi) as (p & E & _).
  exists p. split; [exact E|]. apply Players_assign_in; [lia | exact E].
Qed.

(** The guard shared by the three handlers. *)
Lemma handler_guard_false remotePlayer local :
  (remotePlayer >=? MAX_PLAYERS) || (remotePlayer =? local) = false ->
  remotePlayer < MAX_PLAYERS /\ remotePlayer <> local.
Proof.
  intros H. apply orb_false_iff in H as [H1 H2].
  rewrite Z.geb_leb in H1. apply Z.leb_gt in H1. apply Z.eqb_neq in H2. auto.
Qed.

Lemma HandleAddPlayer_in_table packet offset g :
  Players_sized MAX_PLAYERS g ->
  table_fault (HandleAddPlayer MAX_PLAYERS host_order packet offset g) = false.
Proof.
  intros Hs. unfold HandleAddPlayer, bind at 1.
  destruct (ReadByte_shape packet offset g) as [(v & off & Hv & E)|(i & E)];
    rewrite E; [|reflexivity].
  unfold bind at 1, gets.
  destruct ((v >=? MAX_PLAYERS) || (v =? LocalPlayerId g)) eqn:G; [reflexivity|].
  apply handler_guard_false in G as [Hlt _].
  destruct (Players_assign_ok v (set_Active true) g Hs) as (p & _ & E1); [lia|].
  unfold bind at 1. rewrite E1.
  set (g1 := set_Players _ g).
  assert (Hs1 : Players_sized MAX_PLAYERS g1) by (apply Players_sized_insert, Hs).
  unfold bind at 1.
  destruct (ReadPosition_shape host_order packet off g1) as [(pos & off' & E2)|(i & E2)];
    rewrite E2; [|reflexivity].
  destruct (Players_assign_ok v (set_Position pos) g1 Hs1) as (p1 & _ & E3); [lia|].
  unfold bind. rewrite E3. reflexivity.
Qed.

Lemma HandleRemovePlayer_in_table packet offset g :
  Players_sized MAX_PLAYERS g ->
  table_fault (HandleRemovePlayer MAX_PLAYERS packet offset g) = false.
Proof.
  intros Hs. unfold HandleRemovePlayer, bind at 1.
  destruct (ReadByte_shape packet offset g) as [(v & off & Hv & E)|(i & E)];
    rewrite E; [|reflexivity].
  unfold bind at 1, gets.
  destruct ((v >=? MAX_PLAYERS) || (v =? LocalPlayerId g)) eqn:G; [reflexivity|].
  apply handler_guard_false in G as [Hlt _].
  destruct (Players_assign_ok v (set_Active false) g Hs) as (p & _ & E1); [lia|].
  unfold bind. rewrite E1. reflexivity.
Qed.

Lemma HandleUpdatePlayer_in_table packet offset g :
  Players_sized MAX_PLAYERS g ->
  table_fault (HandleUpdatePlayer MAX_PLAYERS host_order packet offset g) = false.
Proof.
  intros Hs. unfold HandleUpdatePlayer, bind at 1.
  destruct (ReadByte_shape packet offset g) as [(v & off & Hv & E)|(i & E)];
    rewrite E; [|reflexivity].
  unfold bind at 1, gets.
  destruct ((v >=? MAX_PLAYERS) || (v =? LocalPlayerId g)) eqn:G; [reflexivity|].
  apply handler_guard_false in G as [Hlt _].
  destruct (Players_at_in MAX_PLAYERS v g Hs) as (p & _ & E1); [lia|].
  unfold bind at 1. rewrite E1.
  destruct (negb (Active p)); [reflexivity|].
  unfold bind at 1.
  destruct (ReadPosition_shape host_order packet off g) as [(pos & off' & E2)|(i & E2)];
    rewrite E2; [|reflexivity].
  destruct (Players_assign_ok v (set_Position pos) g Hs) as (p1 & _ & E3); [lia|].
  unfold bind. rewrite E3. reflexivity.
Qed.

End TableSafety.

(** ** Counting the calls to the transport *)

Lemma sends_app l1 l2 : sends (l1 ++ l2) = (sends l1 + sends l2)%nat.
Proof. induction l1 as [|[] l1 IH]; simpl; lia. Qed.

Lemma releases_app packet l1 l2 :
  releases packet (l1 ++ l2) = (releases packet l1 + releases packet l2)%nat.
Proof. induction l1 as [|[] l1 IH]; simpl; lia. Qed.

(** Equations for running a [bind]. *)
Lemma bind_Ok {A B} (m : M A) (k : A -> M B) g a g' :
  m g = Ok a g' -> bind m k g = k a g'.
Proof. intros E. unfold bind. rewrite E. reflexivity. Qed.

Lemma bind_Undefined {A B} (m : M A) (k : A -> M B) g u g' :
  m g = Undefined u g' -> bind m k g = Undefined u g'.
Proof. intros E. unfold bind. rewrite E. reflexivity. Qed.

Lemma bind_ret {A B} (a : A) (k : A -> M B) g : bind (ret a) k g = k a g.
Proof. reflexivity. Qed.

Lemma bind_gets {A B} (f : Globals -> A) (k : A -> M B) g :
  bind (gets f) k g = k (f g) g.
Proof. reflexivity. Qed.

Lemma bind_modify {B} (f : Globals -> Globals) (k : unit -> M B) g :
  bind (modify f) k g = k tt (f g).
Proof. reflexivity. Qed.

Section Frames.
Variable MAX_PLAYERS : Z.
Variable host_order : ByteOrder.

Lemma reads_only_UpdateInput_buffer index :
  reads_only (UpdateInput_buffer host_order index).
Proof. unfold UpdateInput_buffer, reads_only. preserve. Qed.

Lemma input_due_test now g :
  (LocalPlayerId g >=? 0) && Qgtb (now - LastInputSend g) InputUpdateInterval = true
  <-> input_due now g.
Proof.
  unfold input_due. rewrite andb_true_iff, Qgtb_true, Z.geb_leb, Z.leb_le. tauto.
Qed.

Lemma send_input_idle peer now g :
  ~ input_due now g -> send_input host_order peer now g = Ok tt g.
Proof.
  intros H. unfold send_input. rewrite !bind_gets.
  destruct (_ && _) eqn:E; [|reflexivity].
  apply input_due_test in E. contradiction.
Qed.

(** The three ways [send_input] can end. *)
Lemma send_input_cases peer now g :
  (~ input_due now g /\ send_input host_order peer now g = Ok tt g) \/
  (input_due now g /\ exists buffer,
     UpdateInput_buffer host_order (LocalPlayerId g) g = Ok buffer g /\
     send_input host_order peer now g
     = Ok tt (set_LastInputSend now
               (add_call (enet_peer_send peer 0
                  (enet_packet_create buffer 5 ENET_PACKET_FLAG_RELIABLE)) g))) \/
  (input_due now g /\ exists u, send_input host_order peer now g = Undefined u g).
Proof.
  unfold send_input. rewrite !bind_gets.
  destruct (_ && _) eqn:E.
  - apply input_due_test in E. right.
    destruct (UpdateInput_buffer host_order (LocalPlayerId g) g) as [buffer g'|u g'] eqn:B.
    + apply reads_only_Ok in B as Hg; [subst g'|apply reads_only_UpdateInput_buffer].
      left. split; [exact E|]. exists buffer. split; [reflexivity|].
      rewrite (bind_Ok _ _ _ _ _ B), !bind_modify. reflexivity.
    + apply reads_only_Undefined in B as Hg; [subst g'|apply reads_only_UpdateInput_buffer].
      right. split; [exact E|]. exists u.
      rewrite (bind_Undefined _ _ _ _ _ B). reflexivity.
  - left. split; [|reflexivity]. rewrite <- input_due_test, E. discriminate.
Qed.

Lemma preserves_accept {B} (f : Globals -> B) packet offset :
  ignores_slots f ->
  (forall v g, f (set_LocalPlayerId v g) = f g) ->
  (forall v g, f (set_LastInputSend v g) = f g) ->
  preserves (keeps f) (accept MAX_PLAYERS packet offset).
Proof.
  intros Hs Hi Hl. unfold accept.
  preserve; apply preserves_Players_assign, Hs.
Qed.

Lemma preserves_receive {B} (f : Globals -> B) packet :
  ignores_slots f ->
  (forall v g, f (set_LocalPlayerId v g) = f g) ->
  (forall v g, f (set_LastInputSend v g) = f g) ->
  (forall g, f (add_call (enet_packet_destroy packet) g) = f g) ->
  preserves (keeps f) (receive MAX_PLAYERS host_order packet).
Proof.
  intros Hs Hi Hl Hd. unfold receive.
  preserve.
  - apply preserves_accept; assumption.
  - apply preserves_dispatch, Hs.
Qed.

End Frames.

(** ** Frames of [Update] *)

#[local] Instance extends_refl : Reflexive extends.
Proof. intros g. exists []. symmetry. apply app_nil_r. Qed.

#[local] Instance extends_trans : Transitive extends.
Proof.
  intros g1 g2 g3 [l1 H1] [l2 H2]. exists (l1 ++ l2).
  rewrite H2, H1. symmetry. apply app_assoc.
Qed.

Lemma preserves_weaken {A} (R R' : relation Globals) (m : M A) :
  (forall g g', R g g' -> R' g g') -> preserves R m -> preserves R' m.
Proof. intros H Hm g. apply H, Hm. Qed.

Lemma keeps_enet_extends g g' : keeps enet g g' -> extends g g'.
Proof. intros H. exists []. rewrite app_nil_r. exact H. Qed.

Section UpdateFrames.
Variable MAX_PLAYERS : Z.
Variable host_order : ByteOrder.

Lemma Update_disconnected now polled g :
  server g = None -> Update MAX_PLAYERS host_order now polled g = Ok tt g.
Proof. intros H. unfold Update. rewrite bind_gets, H. reflexivity. Qed.

Lemma Update_connected now polled g peer :
  server g = Some peer ->
  Update MAX_PLAYERS host_order now polled g
  = bind (send_input host_order peer now)
         (fun _ => on_event MAX_PLAYERS host_order polled) g.
Proof. intros H. unfold Update. rewrite bind_gets, H. reflexivity. Qed.

Lemma preserves_send_input {B} (f : Globals -> B) peer now :
  (forall c g, f (add_call c g) = f g) ->
  (forall v g, f (set_LastInputSend v g) = f g) ->
  preserves (keeps f) (send_input host_order peer now).
Proof.
  intros Hc Hl. unfold send_input. preserve.
  apply reads_only_preserves; [typeclasses eauto | apply reads_only_UpdateInput_buffer].
Qed.

(** Nothing in the handling of an event sends. *)
Lemma on_event_keeps_sends polled :
  preserves (keeps (fun g => sends (enet g))) (on_event MAX_PLAYERS host_order polled).
Proof.
  assert (Hd : forall c g, sends (enet (add_call (enet_packet_destroy c) g)) = sends (enet g)).
  { intros c g. simpl. rewrite sends_app. simpl. lia. }
  unfold on_event. preserve.
  apply preserves_receive; auto. intros g i p. reflexivity.
Qed.

Lemma on_event_keeps_length polled :
  preserves (keeps (fun g => length (Players g))) (on_event MAX_PLAYERS host_order polled).
Proof.
  unfold on_event. preserve.
  apply preserves_receive; auto using ignores_slots_length.
Qed.

Lemma on_event_extends polled :
  preserves extends (on_event MAX_PLAYERS host_order polled).
Proof.
  unfold on_event. preserve;
    try (apply preserves_modify; intros g; apply keeps_enet_extends; reflexivity).
  unfold receive. preserve.
  - apply (preserves_weaken (keeps enet)); [apply keeps_enet_extends|].
    apply preserves_accept; auto using ignores_slots_enet.
  - apply (preserves_weaken (keeps enet)); [apply keeps_enet_extends|].
    apply preserves_dispatch, ignores_slots_enet.
  - apply preserves_modify. intros g. eexists. reflexivity.
Qed.

(** Once an id is assigned, received commands leave the session alone. *)
Lemma receive_joined {B} (f : Globals -> B) packet g :
  ignores_slots f ->
  (forall c g, f (add_call c g) = f g) ->
  LocalPlayerId g <> -1 ->
  f (final (receive MAX_PLAYERS host_order packet g)) = f g.
Proof.
  intros Hs Hc Hj. unfold receive.
  destruct (dataLength packet <? 1); [reflexivity|].
  destruct (ReadByte_shape packet 0 g) as [(v & off & _ & E)|(i & E)].
  - rewrite (bind_Ok _ _ _ _ _ E), bind_gets.
    destruct (LocalPlayerId g =? -1) eqn:L; [apply Z.eqb_eq in L; contradiction|].
    refine ((_ : preserves (keeps f) (bind _ _)) g). preserve.
    apply preserves_dispatch, Hs.
  - rewrite (bind_Undefined _ _ _ _ _ E). reflexivity.
Qed.

Lemma on_event_joined polled g :
  LocalPlayerId g <> -1 ->
  let g' := final (on_event MAX_PLAYERS host_order polled g) in
  LastInputSend g' = LastInputSend g /\
  (server g' = None \/ (LocalPlayerId g' = LocalPlayerId g /\ server g' = server g)).
Proof.
  intros Hj. destruct polled as [[| | |packet|]|]; simpl; auto.
  rewrite (receive_joined LastInputSend), (receive_joined LocalPlayerId),
    (receive_joined server); auto using ignores_slots_LastInputSend,
    ignores_slots_LocalPlayerId, ignores_slots_server.
Qed.


End UpdateFrames.

(** ** Packing the input update *)

Section Packing.
Variable MAX_PLAYERS : Z.
Variable host_order : ByteOrder.

Lemma cast_int16_in_range v g :
  INT16_MIN <= Qtruncate v <= INT16_MAX -> cast_int16 v g = Ok (Qtruncate v) g.
Proof.
  intros [H1 H2]. unfold cast_int16.
  rewrite (proj2 (Z.leb_le _ _) H1), (proj2 (Z.leb_le _ _) H2). reflexivity.
Qed.

Lemma cast_int16_out_of_range v g :
  ~ INT16_MIN <= Qtruncate v <= INT16_MAX ->
  cast_int16 v g = Undefined (Int16CastOutOfRange v) g.
Proof.
  intros H. unfold cast_int16.
  destruct (INT16_MIN <=? Qtruncate v) eqn:E1; [|reflexivity].
  destruct (Qtruncate v <=? INT16_MAX) eqn:E2; [|reflexivity].
  apply Z.leb_le in E1, E2. lia.
Qed.

Lemma UpdateInput_buffer_in_range index p g :
  0 <= index -> Players g !! Z.to_nat index = Some p ->
  INT16_MIN <= Qtruncate (x (Position p)) <= INT16_MAX ->
  INT16_MIN <= Qtruncate (y (Position p)) <= INT16_MAX ->
  UpdateInput_buffer host_order index g
  = Ok (x05 :: bytes_of_int16 host_order (Qtruncate (x (Position p)))
            ++ bytes_of_int16 host_order (Qtruncate (y (Position p)))) g.
Proof.
  intros H0 E Hx Hy. unfold UpdateInput_buffer.
  assert (Ep : Players_at index g = Ok p g).
  { unfold Players_at. rewrite (proj2 (Z.ltb_ge _ _) H0), E. reflexivity. }
  rewrite (bind_Ok _ _ _ _ _ Ep), (bind_Ok _ _ _ _ _ (cast_int16_in_range _ g Hx)).
  rewrite (bind_Ok _ _ _ _ _ Ep), (bind_Ok _ _ _ _ _ (cast_int16_in_range _ g Hy)).
  reflexivity.
Qed.

Lemma UpdateInput_buffer_shape index g buffer g' :
  UpdateInput_buffer host_order index g = Ok buffer g' ->
  exists vx vy,
    buffer = x05 :: bytes_of_int16 host_order vx ++ bytes_of_int16 host_order vy.
Proof.
  unfold UpdateInput_buffer, bind.
  destruct (Players_at index g) as [p g1|]; [|discriminate].
  destruct (cast_int16 _ g1) as [vx g2|]; [|discriminate].
  destruct (Players_at index g2) as [p' g3|]; [|discriminate].
  destruct (cast_int16 _ g3) as [vy g4|]; [|discriminate].
  intros [= <- _]. exists vx, vy. reflexivity.
Qed.

Lemma take_5_buffer vx vy :
  take (Z.to_nat 5) (x05 :: bytes_of_int16 host_order vx ++ bytes_of_int16 host_order vy)
  = x05 :: bytes_of_int16 host_order vx ++ bytes_of_int16 host_order vy.
Proof. destruct host_order; reflexivity. Qed.


End Packing.

(** ** The throttle of the input update *)

Section Throttle.
Variable MAX_PLAYERS : Z.
Variable host_order : ByteOrder.

(** A frame either sends nothing, or sends once because the update was due:
    the call goes first in the frame, carries an [UpdateInput] packet, and
    [LastInputSend] is stamped. *)
Lemma Update_send_or_not now polled g :
  let g' := final (Update MAX_PLAYERS host_order now polled g) in
  sends (enet g') = sends (enet g) \/
  (input_due now g /\ sends (enet g') = S (sends (enet g)) /\
   LastInputSend g' = now /\ (server g' = None \/ LocalPlayerId g' <> -1) /\
   exists peer vx vy log,
     server g = Some peer /\
     enet g' = enet g ++ enet_peer_send peer 0 (UpdateInput_packet host_order vx vy) :: log).
Proof.
  destruct (server g) as [peer|] eqn:S; simpl.
  2: { rewrite Update_disconnected by exact S. left. reflexivity. }
  rewrite (Update_connected _ _ _ _ _ peer S).
  pose proof (on_event_keeps_sends MAX_PLAYERS host_order polled) as Hk.
  destruct (send_input_cases host_order peer now g)
    as [[_ E]|[(Hdue & buffer & B & E)|(_ & u & E)]].
  - rewrite (bind_Ok _ _ _ _ _ E). left. apply Hk.
  - rewrite (bind_Ok _ _ _ _ _ E). right.
    set (g1 := set_LastInputSend now _).
    assert (Hj : LocalPlayerId g1 <> -1) by (destruct Hdue as [H0 _]; simpl; lia).
    destruct (on_event_joined MAX_PLAYERS host_order polled g1 Hj) as [Hl Hs].
    split; [exact Hdue|]. split; [|split; [|split]].
    + rewrite (Hk g1). simpl. rewrite sends_app. simpl. lia.
    + rewrite Hl. reflexivity.
    + destruct Hs as [Hs|[Hs _]]; [left; exact Hs | right; rewrite Hs; exact Hj].
    + destruct (UpdateInput_buffer_shape host_order _ _ _ _ B) as (vx & vy & ->).
      destruct (on_event_extends MAX_PLAYERS host_order polled g1) as [log Hlog].
      exists peer, vx, vy, log. split; [reflexivity|].
      rewrite Hlog. unfold g1. simpl enet.
      unfold enet_packet_create. rewrite take_5_buffer, <- app_assoc. reflexivity.
  - rewrite (bind_Undefined _ _ _ _ _ E). left. reflexivity.
Qed.

Lemma stamped_not_due now g :
  LastInputSend g = now -> ~ input_due now g.
Proof.
  intros H [_ Hd]. rewrite H in Hd.
  change InputUpdateInterval with (1 # 20)%Q in Hd. lra.
Qed.

Lemma Update_stamped now polled g :
  stamped now g ->
  let g' := final (Update MAX_PLAYERS host_order now polled g) in
  stamped now g' /\ sends (enet g') = sends (enet g).
Proof.
  intros [S|[Hj Hl]]; simpl.
  - rewrite Update_disconnected by exact S. split; [left; exact S | reflexivity].
  - destruct (server g) as [peer|] eqn:S.
    2: { rewrite Update_disconnected by exact S. split; [left; exact S | reflexivity]. }
    rewrite (Update_connected _ _ _ _ _ peer S).
    rewrite (bind_Ok _ _ _ _ _ (send_input_idle host_order peer now g
                                  (stamped_not_due now g Hl))).
    split; [|apply (on_event_keeps_sends MAX_PLAYERS host_order polled)].
    destruct (on_event_joined MAX_PLAYERS host_order polled g Hj) as [Hl' Hs].
    destruct Hs as [Hs|[Hs _]]; [left; exact Hs|right].
    rewrite Hs, Hl'. auto.
Qed.

Lemma Updates_stamped now events : forall g,
  stamped now g ->
  sends (enet (final (Updates MAX_PLAYERS host_order now events g))) = sends (enet g).
Proof.
  induction events as [|e rest IH]; intros g Hg; [reflexivity|].
  destruct (Update_stamped now e g Hg) as [Hg' Hs]. simpl in *.
  unfold bind.
  destruct (Update MAX_PLAYERS host_order now e g) as [[] g1|u g1]; simpl in *.
  - rewrite IH by exact Hg'. exact Hs.
  - exact Hs.
Qed.

End Throttle.

(** C6.  A frame makes at most one [enet_peer_send] call.  When it makes
    one, the id was assigned ([LocalPlayerId >= 0]) and more than
    [InputUpdateInterval] = 1/20 had passed since [LastInputSend]; the call
    is the first of the frame and carries an [UpdateInput] packet; the frame
    ends with [LastInputSend = now]; and any further frames at the same
    [now], whatever events they poll, send nothing more. *)
Theorem Update_throttles_input :
  forall MAX_PLAYERS host_order now polled g,
    let g' := final (Update MAX_PLAYERS host_order now polled g) in
    (sends (enet g') <= sends (enet g) + 1)%nat /\
    (sends (enet g') <> sends (enet g) ->
       LocalPlayerId g >= 0 /\
       (now - LastInputSend g > 1 # 20)%Q /\
       (exists peer vx vy log,
          server g = Some peer /\
          enet g' = enet g ++ enet_peer_send peer 0 (UpdateInput_packet host_order vx vy) :: log) /\
       LastInputSend g' = now /\
       forall events,
         sends (enet (final (Updates MAX_PLAYERS host_order now events g')))
         = sends (enet g')).
Proof.
  intros MAX_PLAYERS host_order now polled g g'.
  destruct (Update_send_or_not MAX_PLAYERS host_order now polled g)
    as [H|([H0 Hd] & Hs & Hl & Hj & Hlog)]; fold g' in H || fold g' in Hs, Hl, Hj, Hlog.
  - split; [lia | intros Hne; contradiction].
  - split; [lia|]. intros _. split; [lia|]. split; [exact Hd|].
    split; [exact Hlog|]. split; [exact Hl|].
    intros events. apply Updates_stamped.
    destruct Hj as [Hj|Hj]; [left; exact Hj | right; split; assumption].
Qed.

(** ** Acceptance *)

Section Acceptance.
Variable MAX_PLAYERS : Z.
Variable host_order : ByteOrder.

(** Reading the tag and the id of a two-byte command. *)
Lemma ReadByte_tag packet tag rest g :
  data packet = tag :: rest ->
  ReadByte packet 0 g = Ok (byte_value tag, 1) g.
Proof.
  intros D. apply (ReadByte_in packet 0 tag g); [lia|]. rewrite D. reflexivity.
Qed.

Lemma ReadByte_id packet tag b rest g :
  data packet = tag :: b :: rest ->
  ReadByte packet 1 g = Ok (byte_value b, 2) g.
Proof.
  intros D. apply (ReadByte_in packet 1 b g); [lia|]. rewrite D. reflexivity.
Qed.

Lemma dataLength_cons packet tag rest :
  data packet = tag :: rest -> (dataLength packet <? 1) = false.
Proof. intros D. unfold dataLength. rewrite D. simpl. apply Z.ltb_ge. lia. Qed.

(** The three outcomes of [accept], by the id the server sent. *)
Lemma accept_guard id :
  0 <= id ->
  (id <? 0) || (id >? MAX_PLAYERS) = (MAX_PLAYERS <? id).
Proof.
  intros H. rewrite Z.gtb_ltb.
  destruct (id <? 0) eqn:L; [apply Z.ltb_lt in L; lia | reflexivity].
Qed.

Lemma accept_rejected packet offset g id off :
  ReadByte packet offset g = Ok (id, off) g -> 0 <= id -> MAX_PLAYERS < id ->
  accept MAX_PLAYERS packet offset g
  = Ok Break (set_LocalPlayerId (-1) (set_LocalPlayerId id g)).
Proof.
  intros E H0 H. unfold accept.
  rewrite (bind_Ok _ _ _ _ _ E), bind_modify, bind_gets.
  cbn [LocalPlayerId set_LocalPlayerId]. rewrite accept_guard by exact H0.
  rewrite (proj2 (Z.ltb_lt _ _) H). reflexivity.
Qed.

Lemma accept_in_range packet offset g id off :
  Players_sized MAX_PLAYERS g ->
  ReadByte packet offset g = Ok (id, off) g -> 0 <= id < MAX_PLAYERS ->
  accept MAX_PLAYERS packet offset g
  = Ok Next
      (set_Players
         (<[Z.to_nat id := {| Active := true; Position := {| x := 100; y := 100 |} |}]>
            (Players g))
         (set_LastInputSend (- InputUpdateInterval)%Q (set_LocalPlayerId id g))).
Proof.
  intros Hs E H. unfold accept.
  rewrite (bind_Ok _ _ _ _ _ E), bind_modify, bind_gets.
  cbn [LocalPlayerId set_LocalPlayerId]. rewrite accept_guard by lia.
  rewrite (proj2 (Z.ltb_ge _ _)) by lia.
  rewrite bind_modify, bind_gets. cbn [LocalPlayerId set_LastInputSend set_LocalPlayerId].
  destruct (Players_at_in MAX_PLAYERS id g Hs H) as (p & Ep & _).
  set (g1 := set_LastInputSend _ _).
  rewrite (bind_Ok _ _ _ _ _ (Players_assign_in id (set_Active true) g1 p (proj1 H) Ep)).
  rewrite bind_gets. cbn [LocalPlayerId set_Players g1 set_LastInputSend].
  set (g2 := set_Players _ g1).
  assert (E2 : Players g2 !! Z.to_nat id = Some (set_Active true p)).
  { simpl. apply list_lookup_insert_eq. eapply lookup_lt_Some, Ep. }
  rewrite (bind_Ok _ _ _ _ _ (Players_assign_in id _ g2 _ (proj1 H) E2)).
  unfold ret, set_Players, g2, g1. simpl. rewrite list_insert_insert_eq. reflexivity.
Qed.

(** The id [MAX_PLAYERS] passes the check and indexes one past the table. *)
Lemma accept_at_MAX_PLAYERS packet offset g off :
  Players_sized MAX_PLAYERS g ->
  ReadByte packet offset g = Ok (MAX_PLAYERS, off) g -> 0 <= MAX_PLAYERS ->
  accept MAX_PLAYERS packet offset g
  = Undefined (PlayersOutOfBounds MAX_PLAYERS)
      (set_LastInputSend (- InputUpdateInterval)%Q (set_LocalPlayerId MAX_PLAYERS g)).
Proof.
  intros Hs E H. unfold accept.
  rewrite (bind_Ok _ _ _ _ _ E), bind_modify, bind_gets.
  cbn [LocalPlayerId set_LocalPlayerId]. rewrite accept_guard by lia.
  rewrite Z.ltb_irrefl.
  rewrite bind_modify, bind_gets. cbn [LocalPlayerId set_LastInputSend set_LocalPlayerId].
  apply bind_Undefined, (Players_assign_out MAX_PLAYERS); [exact Hs | lia].
Qed.

Lemma receive_unjoined_AcceptPlayer packet rest g :
  LocalPlayerId g = -1 ->
  data packet = x01 :: rest ->
  receive MAX_PLAYERS host_order packet g
  = bind (accept MAX_PLAYERS packet 1)
      (fun flow => match flow with
                   | Break => ret tt
                   | Next => modify (add_call (enet_packet_destroy packet))
                   end) g.
Proof.
  intros Hu D. unfold receive. rewrite (dataLength_cons _ _ _ D).
  rewrite (bind_Ok _ _ _ _ _ (ReadByte_tag packet _ _ g D)), bind_gets, Hu.
  reflexivity.
Qed.

Lemma receive_AcceptPlayer packet b rest g :
  Players_sized MAX_PLAYERS g ->
  LocalPlayerId g = -1 ->
  data packet = x01 :: b :: rest ->
  byte_value b < MAX_PLAYERS ->
  receive MAX_PLAYERS host_order packet g = Ok tt (accepted_as (byte_value b) packet g).
Proof.
  intros Hs Hu D Hb. pose proof (byte_value_range b) as Hr.
  rewrite (receive_unjoined_AcceptPlayer _ _ _ Hu D).
  rewrite (bind_Ok _ _ _ _ _
             (accept_in_range packet 1 g _ _ Hs (ReadByte_id packet _ _ _ g D)
                ltac:(lia))).
  reflexivity.
Qed.

End Acceptance.


(** ** Ids the acceptance check lets through or turns away *)

Section AcceptanceCheck.
Variable MAX_PLAYERS : Z.
Variable host_order : ByteOrder.

Lemma set_LocalPlayerId_back id g :
  LocalPlayerId g = -1 -> set_LocalPlayerId (-1) (set_LocalPlayerId id g) = g.
Proof. intros H. destruct g. simpl in *. subst. reflexivity. Qed.

Lemma Update_unjoined_AcceptPlayer now peer packet rest g :
  server g = Some peer -> LocalPlayerId g = -1 -> data packet = x01 :: rest ->
  Update MAX_PLAYERS host_order now (Some (ENET_EVENT_TYPE_RECEIVE packet)) g
  = bind (accept MAX_PLAYERS packet 1)
      (fun flow => match flow with
                   | Break => ret tt
                   | Next => modify (add_call (enet_packet_destroy packet))
                   end) g.
Proof.
  intros Hp Hu D. rewrite (Update_connected _ _ _ _ _ peer Hp).
  assert (Hi : ~ input_due now g) by (intros [H0 _]; lia).
  rewrite (bind_Ok _ _ _ _ _ (send_input_idle host_order peer now g Hi)).
  apply (receive_unjoined_AcceptPlayer MAX_PLAYERS host_order packet rest g Hu D).
Qed.

(** Ids above [MAX_PLAYERS] are turned away: the globals are as before, and
    the [break] has skipped [enet_packet_destroy]. *)
Lemma Update_AcceptPlayer_rejected now peer packet b rest g :
  server g = Some peer -> LocalPlayerId g = -1 ->
  data packet = x01 :: b :: rest -> MAX_PLAYERS < byte_value b ->
  Update MAX_PLAYERS host_order now (Some (ENET_EVENT_TYPE_RECEIVE packet)) g = Ok tt g.
Proof.
  intros Hp Hu D Hb. pose proof (byte_value_range b) as Hr.
  rewrite (Update_unjoined_AcceptPlayer now peer packet _ g Hp Hu D).
  rewrite (bind_Ok _ _ _ _ _
             (accept_rejected MAX_PLAYERS packet 1 g _ _
                (ReadByte_id packet _ _ _ g D) (proj1 Hr) Hb)).
  rewrite set_LocalPlayerId_back by exact Hu. reflexivity.
Qed.

(** The id [MAX_PLAYERS] itself is let through. *)
Lemma Update_AcceptPlayer_at_MAX_PLAYERS now peer packet b rest g :
  Players_sized MAX_PLAYERS g ->
  server g = Some peer -> LocalPlayerId g = -1 ->
  data packet = x01 :: b :: rest -> byte_value b = MAX_PLAYERS ->
  Update MAX_PLAYERS host_order now (Some (ENET_EVENT_TYPE_RECEIVE packet)) g
  = Undefined (PlayersOutOfBounds MAX_PLAYERS)
      (set_LastInputSend (- InputUpdateInterval)%Q (set_LocalPlayerId MAX_PLAYERS g)).
Proof.
  intros Hs Hp Hu D Hb. pose proof (byte_value_range b) as Hr.
  rewrite (Update_unjoined_AcceptPlayer now peer packet _ g Hp Hu D).
  apply bind_Undefined, (accept_at_MAX_PLAYERS MAX_PLAYERS packet 1 g 2 Hs); [|lia].
  rewrite <- Hb. apply (ReadByte_id packet _ _ _ g D).
Qed.

End AcceptanceCheck.

(** C1, at the boundary id.  While unjoined, an [AcceptPlayer] command whose
    id byte equals [MAX_PLAYERS] is not rejected: the run ends with
    [LocalPlayerId = MAX_PLAYERS] and the timer forced, stopped by the
    assignment to [Players[MAX_PLAYERS]]. *)
Theorem AcceptPlayer_boundary_id_not_rejected :
  forall MAX_PLAYERS host_order now peer packet b rest g,
    Players_sized MAX_PLAYERS g ->
    server g = Some peer ->
    LocalPlayerId g = -1 ->
    data packet = x01 :: b :: rest ->
    byte_value b = MAX_PLAYERS ->
    let r := Update MAX_PLAYERS host_order now (Some (ENET_EVENT_TYPE_RECEIVE packet)) g in
    is_Ok r = false /\
    LocalPlayerId (final r) = MAX_PLAYERS /\
    LocalPlayerId (final r) <> -1 /\
    LastInputSend (final r) = (- InputUpdateInterval)%Q.
Proof.
  intros MAX_PLAYERS host_order now peer packet b rest g Hs Hp Hu D Hb r.
  pose proof (byte_value_range b) as Hr. unfold r.
  rewrite (Update_AcceptPlayer_at_MAX_PLAYERS MAX_PLAYERS host_order now peer packet b rest g)
    by assumption.
  simpl. repeat split. lia.
Qed.

(** C4, at [AcceptPlayer] with the id [MAX_PLAYERS], which lies outside
    [0, MAX_PLAYERS): the command is not a no-op on the table, the code goes
    on to assign [Players[MAX_PLAYERS]], one slot past the end. *)
Theorem AcceptPlayer_boundary_id_indexes_past_table :
  forall MAX_PLAYERS host_order now peer packet b rest g,
    Players_sized MAX_PLAYERS g ->
    server g = Some peer ->
    LocalPlayerId g = -1 ->
    data packet = x01 :: b :: rest ->
    byte_value b = MAX_PLAYERS ->
    ~ 0 <= byte_value b < MAX_PLAYERS /\
    table_fault (Update MAX_PLAYERS host_order now
                   (Some (ENET_EVENT_TYPE_RECEIVE packet)) g) = true.
Proof.
  intros MAX_PLAYERS host_order now peer packet b rest g Hs Hp Hu D Hb.
  split; [lia|].
  rewrite (Update_AcceptPlayer_at_MAX_PLAYERS MAX_PLAYERS host_order now peer packet b rest g)
    by assumption.
  reflexivity.
Qed.

Section OutOfRangeIds.
Variable MAX_PLAYERS : Z.
Variable host_order : ByteOrder.

(** The joined handlers return at once on an id of [MAX_PLAYERS] or more. *)
Lemma handlers_ignore_large_ids packet offset g id off :
  ReadByte packet offset g = Ok (id, off) g -> MAX_PLAYERS <= id ->
  HandleAddPlayer MAX_PLAYERS host_order packet offset g = Ok off g /\
  HandleRemovePlayer MAX_PLAYERS packet offset g = Ok off g /\
  HandleUpdatePlayer MAX_PLAYERS host_order packet offset g = Ok off g.
Proof.
  intros E H.
  assert (G : forall l, (id >=? MAX_PLAYERS) || (id =? l) = true).
  { intros l. rewrite Z.geb_leb, (proj2 (Z.leb_le _ _) H). reflexivity. }
  unfold HandleAddPlayer, HandleRemovePlayer, HandleUpdatePlayer.
  rewrite !(bind_Ok _ _ _ _ _ E), !bind_gets, !G. auto.
Qed.

(** A packet without a command byte leaves the [switch] before the release. *)
Lemma receive_short packet g :
  dataLength packet < 1 -> receive MAX_PLAYERS host_order packet g = Ok tt g.
Proof.
  intros H. unfold receive. rewrite (proj2 (Z.ltb_lt _ _) H). reflexivity.
Qed.

Lemma send_input_keeps_releases packet peer now :
  preserves (keeps (fun g => releases packet (enet g))) (send_input host_order peer now).
Proof.
  unfold send_input. preserve.
  - apply reads_only_preserves; [typeclasses eauto | apply reads_only_UpdateInput_buffer].
  - apply preserves_modify. intros g. unfold keeps. simpl.
    rewrite releases_app. simpl. lia.
Qed.

Lemma Update_short_packet now packet g :
  dataLength packet < 1 ->
  releases packet
    (enet (final (Update MAX_PLAYERS host_order now
                    (Some (ENET_EVENT_TYPE_RECEIVE packet)) g)))
  = releases packet (enet g).
Proof.
  intros H. destruct (server g) as [peer|] eqn:S.
  - rewrite (Update_connected _ _ _ _ _ peer S).
    pose proof (send_input_keeps_releases packet peer now g) as Hk.
    unfold bind. destruct (send_input host_order peer now g) as [[] g1|u g1];
      simpl in *; [|exact Hk].
    rewrite receive_short by exact H. exact Hk.
  - rewrite Update_disconnected by exact S. reflexivity.
Qed.

End OutOfRangeIds.

(** ** Where the received packet is released *)

Section Release.
Variable MAX_PLAYERS : Z.
Variable host_order : ByteOrder.

(** [accept] leaves the [switch] early only on the rejecting branch. *)
Lemma accept_Break packet offset g g1 :
  accept MAX_PLAYERS packet offset g = Ok Break g1 ->
  LocalPlayerId g1 = -1 /\ enet g1 = enet g.
Proof.
  unfold accept.
  destruct (ReadByte_shape packet offset g) as [(v & off & _ & E)|(i & E)].
  2: { rewrite (bind_Undefined _ _ _ _ _ E). discriminate. }
  rewrite (bind_Ok _ _ _ _ _ E), bind_modify, bind_gets.
  destruct (_ || _).
  - rewrite bind_modify. intros [= <-]. split; reflexivity.
  - rewrite bind_modify, bind_gets. unfold bind at 1.
    destruct (Players_assign _ _ _) as [[] g2|u g2]; [|discriminate].
    rewrite bind_gets. unfold bind.
    destruct (Players_assign _ _ _) as [[] g3|u g3]; discriminate.
Qed.

Lemma dispatch_Next command packet offset g flow g1 :
  dispatch MAX_PLAYERS host_order command packet offset g = Ok flow g1 -> flow = Next.
Proof.
  unfold dispatch.
  destruct (command =? AddPlayer);
    [|destruct (command =? RemovePlayer); [|destruct (command =? UpdatePlayer)]];
    unfold bind;
    try match goal with
        | |- context [match ?h with Ok _ _ => _ | Undefined _ _ => _ end] => destruct h
        end;
    unfold ret; congruence.
Qed.

(** A frame that handles a received packet normally releases it once,
    except on the two early exits: a packet without a command byte, and a
    rejected acceptance. *)
Lemma receive_releases packet g g' :
  receive MAX_PLAYERS host_order packet g = Ok tt g' ->
  enet g' = enet g ++ [enet_packet_destroy packet] \/
  (enet g' = enet g /\
   (dataLength packet < 1 \/ (LocalPlayerId g = -1 /\ LocalPlayerId g' = -1))).
Proof.
  unfold receive. destruct (dataLength packet <? 1) eqn:L.
  { intros [= <-]. right. apply Z.ltb_lt in L. auto. }
  destruct (ReadByte_shape packet 0 g) as [(v & off & _ & E)|(i & E)].
  2: { rewrite (bind_Undefined _ _ _ _ _ E). discriminate. }
  rewrite (bind_Ok _ _ _ _ _ E), bind_gets.
  destruct (LocalPlayerId g =? -1) eqn:U.
  - apply Z.eqb_eq in U. destruct (v =? AcceptPlayer).
    + unfold bind.
      destruct (accept MAX_PLAYERS packet off g) as [[|] g1|u g1] eqn:A; [| |discriminate].
      * intros [= <-]. left. simpl.
        pose proof (preserves_accept MAX_PLAYERS enet packet off (ignores_slots_enet)
                      (fun _ _ => eq_refl) (fun _ _ => eq_refl) g) as K.
        rewrite A in K. unfold keeps in K. simpl in K. rewrite K. reflexivity.
      * intros [= <-]. apply accept_Break in A as [A1 A2]. right. auto.
    + rewrite bind_ret. intros [= <-]. left. reflexivity.
  - unfold bind.
    destruct (dispatch MAX_PLAYERS host_order v packet off g) as [flow g1|u g1] eqn:D;
      [|discriminate].
    pose proof (dispatch_Next _ _ _ _ _ _ D) as ->.
    intros [= <-]. left. simpl.
    pose proof (preserves_dispatch MAX_PLAYERS host_order enet ignores_slots_enet
                  v packet off g) as K.
    rewrite D in K. unfold keeps in K. simpl in K. rewrite K. reflexivity.
Qed.

End Release.

(** C2, on the two paths that leave the [switch] early.  A received packet
    with no bytes is never handed to [enet_packet_destroy], in any state;
    nor is an [AcceptPlayer] packet whose id is above [MAX_PLAYERS], received
    while unjoined: that frame ends normally with the globals, and so the log
    of transport calls, exactly as they were. *)
Theorem early_break_skips_enet_packet_destroy :
  forall MAX_PLAYERS host_order now peer packet b rest g,
    server g = Some peer ->
    (dataLength packet < 1 ->
       releases packet
         (enet (final (Update MAX_PLAYERS host_order now
                         (Some (ENET_EVENT_TYPE_RECEIVE packet)) g)))
       = releases packet (enet g)) /\
    (LocalPlayerId g = -1 ->
     data packet = x01 :: b :: rest -> MAX_PLAYERS < byte_value b ->
       Update MAX_PLAYERS host_order now (Some (ENET_EVENT_TYPE_RECEIVE packet)) g = Ok tt g /\
       releases packet
         (enet (final (Update MAX_PLAYERS host_order now
                         (Some (ENET_EVENT_TYPE_RECEIVE packet)) g)))
       = releases packet (enet g)).
Proof.
  intros MAX_PLAYERS host_order now peer packet b rest g Hp. split.
  - apply Update_short_packet.
  - intros Hu D Hb.
    rewrite (Update_AcceptPlayer_rejected MAX_PLAYERS host_order now peer packet b rest g)
      by assumption.
    split; reflexivity.
Qed.

(** C5, at the end of the data.  With the cursor equal to [dataLength] the
    guard [offset > dataLength] does not fire: [ReadByte] and [ReadShort]
    read the byte at index [dataLength], outside the data, instead of
    returning 0; and a [ReadShort] that starts on the last byte reads its
    second byte from index [dataLength]. *)
Theorem readers_read_past_the_end :
  forall host_order packet g,
    ReadByte packet (dataLength packet) g
      = Undefined (PacketOutOfBounds (dataLength packet)) g /\
    ReadShort host_order packet (dataLength packet) g
      = Undefined (PacketOutOfBounds (dataLength packet)) g /\
    (1 <= dataLength packet ->
     ReadShort host_order packet (dataLength packet - 1) g
       = Undefined (PacketOutOfBounds (dataLength packet)) g).
Proof.
  intros host_order packet g.
  split; [apply ReadByte_at_end|split; [apply ReadShort_at_end|apply ReadShort_last]].
Qed.

(** A frame reaches that read on an [AcceptPlayer] packet that carries the
    tag alone: the id is read at offset 1, the length of the data. *)
Lemma truncated_AcceptPlayer_reads_past_the_end :
  Update 8 LittleEndian 0
    (Some (ENET_EVENT_TYPE_RECEIVE {| data := [x01]; flags := 0 |})) connecting
  = Undefined (PacketOutOfBounds 1) connecting.
Proof. reflexivity. Qed.

(** ** Round trip of the input update *)

Lemma int16_bytes_round_trip order v :
  INT16_MIN <= v <= INT16_MAX ->
  exists b0 b1,
    bytes_of_int16 order v = [b0; b1] /\
    int16_of_bytes order (byte_value b0) (byte_value b1) = v.
Proof.
  intros Hv. pose proof (to_int16_mod v Hv) as Hm.
  assert (Hu : 0 <= v mod 65536 < 65536) by (apply Z.mod_pos_bound; lia).
  destruct order; simpl; eexists _, _; (split; [reflexivity|]);
    rewrite !byte_value_of_Z; rewrite <- Hm at 3; f_equal;
    revert Hu; generalize (v mod 65536); intros u Hu;
    Z.div_mod_to_equations; lia.
Qed.

Lemma decode_UpdateInput_packet order vx vy g :
  INT16_MIN <= vx <= INT16_MAX -> INT16_MIN <= vy <= INT16_MAX ->
  decode_UpdateInput order (UpdateInput_packet order vx vy) g = Ok (vx, vy) g.
Proof.
  intros Hx Hy.
  destruct (int16_bytes_round_trip order vx Hx) as (a0 & a1 & Ea & Ra).
  destruct (int16_bytes_round_trip order vy Hy) as (c0 & c1 & Ec & Rc).
  unfold decode_UpdateInput, UpdateInput_packet. rewrite Ea, Ec.
  set (packet := {| data := _; flags := _ |}).
  rewrite (bind_Ok _ _ _ _ _ (ReadByte_in packet 0 x05 g ltac:(lia) eq_refl)).
  change (size_t_add 0 1) with 1.
  rewrite (bind_Ok _ _ _ _ _ (ReadShort_in order packet 1 a0 a1 g ltac:(lia) eq_refl eq_refl)).
  change (size_t_add 1 2) with 3.
  rewrite (bind_Ok _ _ _ _ _ (ReadShort_in order packet 3 c0 c1 g ltac:(lia) eq_refl eq_refl)).
  rewrite Ra, Rc. reflexivity.
Qed.

(** C7 as amended.  When the integral parts of both components of the
    position in a slot fit a signed 16-bit integer, the slot is packed into
    five bytes, the tag 5 followed by the two integral parts as 16-bit
    integers in the byte order of the host, and decoding them with
    [ReadByte] and two [ReadShort] calls gives back exactly those integral
    parts, for either byte order. *)
Theorem UpdateInput_round_trip :
  forall host_order index p g,
    0 <= index ->
    Players g !! Z.to_nat index = Some p ->
    INT16_MIN <= Qtruncate (x (Position p)) <= INT16_MAX ->
    INT16_MIN <= Qtruncate (y (Position p)) <= INT16_MAX ->
    UpdateInput_buffer host_order index g
      = Ok (x05 :: bytes_of_int16 host_order (Qtruncate (x (Position p)))
                ++ bytes_of_int16 host_order (Qtruncate (y (Position p)))) g /\
    round_trips host_order index g.
Proof.
  intros host_order index p g H0 E Hx Hy.
  pose proof (UpdateInput_buffer_in_range host_order index p g H0 E Hx Hy) as B.
  split; [exact B|]. exists p. eexists.
  split; [exact E|]. split; [exact B|].
  unfold enet_packet_create. rewrite take_5_buffer.
  apply decode_UpdateInput_packet; assumption.
Qed.

(** C7 as stated fails at the position (40000, 0): 40000 does not fit an
    [int16_t], the conversion is undefined and no packet is produced. *)
Lemma round_trip_fails_at_40000 :
  UpdateInput_buffer LittleEndian 0 far_away
    = Undefined (Int16CastOutOfRange 40000) far_away /\
  ~ round_trips LittleEndian 0 far_away.
Proof.
  split; [reflexivity|].
  intros (p & buffer & _ & B & _). discriminate B.
Qed.

(** ** Local movement *)

Section Movement.
Variables FieldSizeWidth FieldSizeHeight PlayerSize : Q.

Lemma Players_at_with_slot index q g :
  0 <= index -> (Z.to_nat index < length (Players g))%nat ->
  Players_at index (with_slot (Z.to_nat index) q g)
  = Ok q (with_slot (Z.to_nat index) q g).
Proof.
  intros H0 Hi. unfold Players_at. rewrite (proj2 (Z.ltb_ge _ _) H0).
  simpl. rewrite list_lookup_insert_eq by exact Hi. reflexivity.
Qed.

Lemma Players_assign_with_slot index f q g :
  0 <= index -> (Z.to_nat index < length (Players g))%nat ->
  Players_assign index f (with_slot (Z.to_nat index) q g)
  = Ok tt (with_slot (Z.to_nat index) (f q) g).
Proof.
  intros H0 Hi. unfold Players_assign.
  rewrite (bind_Ok _ _ _ _ _ (Players_at_with_slot index q g H0 Hi)).
  unfold modify, with_slot, set_Players. simpl.
  rewrite list_insert_insert_eq. reflexivity.
Qed.









End Movement.


(** ** Disconnection *)

Section Disconnection.
Variable MAX_PLAYERS : Z.
Variable host_order : ByteOrder.

Lemma Update_disconnect now peer g g1 :
  server g = Some peer ->
  send_input host_order peer now g = Ok tt g1 ->
  Update MAX_PLAYERS host_order now (Some ENET_EVENT_TYPE_DISCONNECT) g
  = Ok tt (set_LocalPlayerId (-1) (set_server None g1)).
Proof.
  intros Hp E. rewrite (Update_connected _ _ _ _ _ peer Hp).
  rewrite (bind_Ok _ _ _ _ _ E). reflexivity.
Qed.

End Disconnection.

(** C9 as amended.  On a disconnect event [Update] unsets [LocalPlayerId]
    and [server] and changes nothing else: the player table stays as it
    was, and [LastInputSend] is not reset, it keeps the value the first half
    of the frame left (the old one, or [now] when that half sent the input
    update, which is then the only new transport call). *)
Theorem disconnect_unsets_id_and_peer_only :
  forall MAX_PLAYERS host_order now peer g,
    server g = Some peer ->
    let r := Update MAX_PLAYERS host_order now (Some ENET_EVENT_TYPE_DISCONNECT) g in
    (~ input_due now g -> r = Ok tt (set_LocalPlayerId (-1) (set_server None g))) /\
    (is_Ok r = true ->
       LocalPlayerId (final r) = -1 /\
       server (final r) = None /\
       Players (final r) = Players g /\
       ((LastInputSend (final r) = LastInputSend g /\ enet (final r) = enet g) \/
        (input_due now g /\ LastInputSend (final r) = now /\
         exists packet, enet (final r) = enet g ++ [enet_peer_send peer 0 packet]))).
Proof.
  intros MAX_PLAYERS host_order now peer g Hp r. unfold r. split.
  - intros Hi. apply (Update_disconnect MAX_PLAYERS host_order now peer g g Hp).
    apply send_input_idle, Hi.
  - destruct (send_input_cases host_order peer now g)
      as [[_ E]|[(Hd & buffer & _ & E)|(_ & u & E)]].
    + rewrite (Update_disconnect MAX_PLAYERS host_order now peer g g Hp E).
      intros _. simpl. repeat split. left. split; reflexivity.
    + rewrite (Update_disconnect MAX_PLAYERS host_order now peer g _ Hp E).
      intros _. simpl. repeat split.
      * right. split; [exact Hd|]. split; [reflexivity|]. eexists. reflexivity.
    + rewrite (Update_connected _ _ _ _ _ peer Hp), (bind_Undefined _ _ _ _ _ E).
      discriminate.
Qed.

(** C9 as stated fails: a disconnect at time 5 in [sent_at_5] leaves
    [LastInputSend] at 5, which is neither its initial value, nor the value
    an acceptance forces, nor zero. *)
Lemma disconnect_leaves_LastInputSend :
  Update 8 LittleEndian 5 (Some ENET_EVENT_TYPE_DISCONNECT) sent_at_5
    = Ok tt (set_LocalPlayerId (-1) (set_server None sent_at_5)) /\
  LastInputSend (set_LocalPlayerId (-1) (set_server None sent_at_5)) = 5%Q /\
  ~ (5 == LastInputSend_init)%Q /\
  ~ (5 == - InputUpdateInterval)%Q /\
  ~ (5 == 0)%Q /\
  ~ disconnect_resets_session 8 LittleEndian.
Proof.
  assert (E : Update 8 LittleEndian 5 (Some ENET_EVENT_TYPE_DISCONNECT) sent_at_5
              = Ok tt (set_LocalPlayerId (-1) (set_server None sent_at_5)))
    by reflexivity.
  split; [exact E|]. split; [reflexivity|]. split; [discriminate|]. split; [discriminate|].
  split; [discriminate|].
  intros H. destruct (H 5%Q 1%nat sent_at_5 _ eq_refl E) as (_ & _ & Hl).
  discriminate Hl.
Qed.

(** C10.  The joined handlers index [Players] only inside
    [0, MAX_PLAYERS): the id [ReadByte] decodes is a byte value, so never
    negative; on an id of [MAX_PLAYERS] or more each handler returns before
    touching the table; and no run of a handler, on any packet, offset and
    globals, ends on an access outside the table, the [Active] test of
    [HandleUpdatePlayer] included. *)
Theorem joined_handlers_stay_inside_table :
  forall MAX_PLAYERS host_order packet offset g,
    Players_sized MAX_PLAYERS g ->
    (forall index,
       table_fault (Players_at index g) = negb ((0 <=? index) && (index <? MAX_PLAYERS))) /\
    (forall id off, ReadByte packet offset g = Ok (id, off) g -> 0 <= id <= 255) /\
    (forall id off,
       ReadByte packet offset g = Ok (id, off) g -> MAX_PLAYERS <= id ->
       HandleAddPlayer MAX_PLAYERS host_order packet offset g = Ok off g /\
       HandleRemovePlayer MAX_PLAYERS packet offset g = Ok off g /\
       HandleUpdatePlayer MAX_PLAYERS host_order packet offset g = Ok off g) /\
    table_fault (HandleAddPlayer MAX_PLAYERS host_order packet offset g) = false /\
    table_fault (HandleRemovePlayer MAX_PLAYERS packet offset g) = false /\
    table_fault (HandleUpdatePlayer MAX_PLAYERS host_order packet offset g) = false.
Proof.
  intros MAX_PLAYERS host_order packet offset g Hs.
  split; [|split; [|split; [|split; [|split]]]].
  - intros index.
    destruct ((0 <=? index) && (index <? MAX_PLAYERS)) eqn:B.
    + apply andb_true_iff in B as [B1 B2]. apply Z.leb_le in B1. apply Z.ltb_lt in B2.
      destruct (Players_at_in MAX_PLAYERS index g Hs (conj B1 B2)) as (p & _ & E).
      rewrite E. reflexivity.
    + rewrite (Players_at_out MAX_PLAYERS index g Hs); [reflexivity|].
      intros [B1 B2]. apply Z.leb_le in B1. apply Z.ltb_lt in B2.
      rewrite B1, B2 in B. discriminate.
  - intros id off E.
    destruct (ReadByte_shape packet offset g) as [(v & o & Hv & E')|(i & E')];
      rewrite E' in E; [injection E as <- <-; exact Hv | discriminate].
  - intros id off. apply handlers_ignore_large_ids.
  - apply HandleAddPlayer_in_table, Hs.
  - apply HandleRemovePlayer_in_table, Hs.
  - apply HandleUpdatePlayer_in_table, Hs.
Qed.

(** ** The theorems at concrete inputs *)


Lemma AcceptPlayer_boundary_id_not_rejected_witness :
  byte_value x08 = 8 /\
  LocalPlayerId (final (Update 8 LittleEndian 0
                          (Some (ENET_EVENT_TYPE_RECEIVE accept_8)) connecting)) = 8.
Proof.
  split; [reflexivity|].
  exact (proj1 (proj2 (AcceptPlayer_boundary_id_not_rejected 8 LittleEndian 0 1%nat
                         accept_8 x08 [] connecting
                         eq_refl eq_refl eq_refl eq_refl eq_refl))).
Defined.

Lemma AcceptPlayer_boundary_id_indexes_past_table_witness :
  byte_value x08 = 8 /\
  table_fault (Update 8 LittleEndian 0
                 (Some (ENET_EVENT_TYPE_RECEIVE accept_8)) connecting) = true.
Proof.
  split; [reflexivity|].
  exact (proj2 (AcceptPlayer_boundary_id_indexes_past_table 8 LittleEndian 0 1%nat
                  accept_8 x08 [] connecting
                  eq_refl eq_refl eq_refl eq_refl eq_refl)).
Defined.

Lemma early_break_skips_enet_packet_destroy_witness :
  releases no_bytes
    (enet (final (Update 8 LittleEndian 0
                    (Some (ENET_EVENT_TYPE_RECEIVE no_bytes)) connecting))) = 0%nat /\
  Update 8 LittleEndian 0 (Some (ENET_EVENT_TYPE_RECEIVE accept_9)) connecting
  = Ok tt connecting.
Proof.
  split.
  - exact (proj1 (early_break_skips_enet_packet_destroy 8 LittleEndian 0 1%nat
                    no_bytes x00 [] connecting eq_refl) eq_refl).
  - exact (proj1 (proj2 (early_break_skips_enet_packet_destroy 8 LittleEndian 0 1%nat
                           accept_9 x09 [] connecting eq_refl)
                    eq_refl eq_refl eq_refl)).
Defined.

Lemma readers_read_past_the_end_witness :
  1 <= dataLength accept_3 /\
  ReadShort LittleEndian accept_3 1 connecting
  = Undefined (PacketOutOfBounds 2) connecting.
Proof.
  split; [discriminate|].
  apply (proj2 (proj2 (readers_read_past_the_end LittleEndian accept_3 connecting))).
  discriminate.
Defined.

Lemma Update_throttles_input_witness :
  sends (enet (final (Update 8 LittleEndian 1 None joined_3))) = 1%nat /\
  LastInputSend (final (Update 8 LittleEndian 1 None joined_3)) = 1%Q.
Proof.
  split; [reflexivity|].
  apply (proj2 (Update_throttles_input 8 LittleEndian 1 None joined_3)).
  discriminate.
Defined.

Lemma UpdateInput_round_trip_witness :
  Players joined_3 !! Z.to_nat 3
    = Some {| Active := true; Position := {| x := 100; y := 100 |} |} /\
  round_trips BigEndian 3 joined_3.
Proof.
  split; [reflexivity|].
  apply (UpdateInput_round_trip BigEndian 3
           {| Active := true; Position := {| x := 100; y := 100 |} |} joined_3).
  - lia.
  - reflexivity.
  - split; discriminate.
  - split; discriminate.
Defined.


Lemma disconnect_unsets_id_and_peer_only_witness :
  server sent_at_5 = Some 1%nat /\
  Update 8 LittleEndian 5 (Some ENET_EVENT_TYPE_DISCONNECT) sent_at_5
  = Ok tt (set_LocalPlayerId (-1) (set_server None sent_at_5)).
Proof.
  split; [reflexivity|].
  apply (proj1 (disconnect_unsets_id_and_peer_only 8 LittleEndian 5 1%nat sent_at_5 eq_refl)).
  intros [_ H]. discriminate H.
Defined.

Lemma joined_handlers_stay_inside_table_witness :
  Players_sized 8 joined_3 /\
  table_fault (HandleUpdatePlayer 8 LittleEndian accept_9 1 joined_3) = false.
Proof.
  split; [reflexivity|].
  apply (joined_handlers_stay_inside_table 8 LittleEndian accept_9 1 joined_3).
  reflexivity.
Defined.

(** * Further properties of the code *)

(** ** What the readers return *)

Lemma to_int16_range u : 0 <= u < 65536 -> INT16_MIN <= to_int16 u <= INT16_MAX.
Proof.
  intros H. unfold to_int16, INT16_MIN, INT16_MAX.
  destruct (u <? 32768) eqn:E; [apply Z.ltb_lt in E | apply Z.ltb_ge in E]; lia.
Qed.

Lemma int16_of_bytes_range order b0 b1 :
  0 <= b0 <= 255 -> 0 <= b1 <= 255 ->
  INT16_MIN <= int16_of_bytes order b0 b1 <= INT16_MAX.
Proof. intros H0 H1. destruct order; simpl; apply to_int16_range; lia. Qed.

Lemma load_byte_Ok packet index g v g' :
  load_byte packet index g = Ok v g' ->
  g' = g /\ 0 <= index < dataLength packet /\
  exists b, data packet !! Z.to_nat index = Some b /\ v = byte_value b.
Proof.
  unfold load_byte. destruct (index <? 0) eqn:L; [discriminate|].
  apply Z.ltb_ge in L.
  destruct (data packet !! Z.to_nat index) as [b|] eqn:E; [|discriminate].
  intros [= <- <-]. split; [reflexivity|].
  split; [split; [exact L | eapply lookup_data_lt; eassumption]|]. eauto.
Qed.

Lemma ReadByte_Ok_inv :
  forall packet offset g v offset' g',
    ReadByte packet offset g = Ok (v, offset') g' ->
    g' = g /\ 0 <= v <= 255 /\
    ((dataLength packet < offset /\ v = 0 /\ offset' = offset) \/
     (0 <= offset < dataLength packet /\ offset' = size_t_add offset 1 /\
      exists b, data packet !! Z.to_nat offset = Some b /\ v = byte_value b)).
Proof.
  intros packet offset g v offset' g'. unfold ReadByte.
  destruct (offset >? dataLength packet) eqn:G.
  - rewrite Z.gtb_ltb in G. apply Z.ltb_lt in G.
    intros [= <- <- <-]. split; [reflexivity|]. split; [lia|]. left. auto.
  - unfold bind. destruct (load_byte packet offset g) as [w g1|u g1] eqn:E; [|discriminate].
    apply load_byte_Ok in E as (-> & Hi & b & Eb & ->).
    intros [= <- <- <-]. split; [reflexivity|].
    split; [apply byte_value_range|]. right. eauto.
Qed.

(** X1.  A [ReadByte] that returns leaves the globals alone and gives a
    value between 0 and 255: either the cursor was past the end, the value
    is 0 and the cursor is unchanged, or the cursor was inside the data, the
    value is the byte under it and the cursor has moved by one. *)
Theorem ReadByte_returns :
  forall packet offset g v offset' g',
    ReadByte packet offset g = Ok (v, offset') g' ->
    g' = g /\ 0 <= v <= 255 /\
    ((dataLength packet < offset /\ v = 0 /\ offset' = offset) \/
     (0 <= offset < dataLength packet /\ offset' = size_t_add offset 1 /\
      exists b, data packet !! Z.to_nat offset = Some b /\ v = byte_value b)).
Proof. exact ReadByte_Ok_inv. Qed.

(** X2.  A [ReadShort] that returns leaves the globals alone and gives a
    value in the range of [int16_t]: either the cursor was past the end,
    the value is 0 and the cursor is unchanged, or both bytes under the
    cursor were inside the data, the value is the host-order short they
    hold and the cursor has moved by two. *)
Theorem ReadShort_returns :
  forall order packet offset g v offset' g',
    ReadShort order packet offset g = Ok (v, offset') g' ->
    g' = g /\ INT16_MIN <= v <= INT16_MAX /\
    ((dataLength packet < offset /\ v = 0 /\ offset' = offset) \/
     (0 <= offset /\ offset + 1 < dataLength packet /\ offset' = size_t_add offset 2 /\
      exists b0 b1,
        data packet !! Z.to_nat offset = Some b0 /\
        data packet !! Z.to_nat (offset + 1) = Some b1 /\
        v = int16_of_bytes order (byte_value b0) (byte_value b1))).
Proof.
  intros order packet offset g v offset' g'. unfold ReadShort.
  destruct (offset >? dataLength packet) eqn:G.
  - rewrite Z.gtb_ltb in G. apply Z.ltb_lt in G.
    intros [= <- <- <-]. split; [reflexivity|]. split; [split; discriminate|]. left. auto.
  - unfold bind, load_int16, bind.
    destruct (load_byte packet offset g) as [w0 g1|u g1] eqn:E0; [|discriminate].
    apply load_byte_Ok in E0 as (-> & H0 & b0 & Eb0 & ->).
    destruct (load_byte packet (offset + 1) g) as [w1 g1|u g1] eqn:E1; [|discriminate].
    apply load_byte_Ok in E1 as (-> & H1 & b1 & Eb1 & ->).
    intros [= <- <- <-]. split; [reflexivity|].
    split; [apply int16_of_bytes_range; apply byte_value_range|].
    right. split; [lia|]. split; [lia|]. split; [reflexivity|]. eauto.
Qed.

Lemma size_t_add_small a b :
  0 <= a -> 0 <= b -> a + b <= SIZE_MAX -> size_t_add a b = a + b.
Proof.
  intros Ha Hb H. unfold size_t_add. apply Z.mod_small. lia.
Qed.

Lemma ReadShort_stored :
  forall order packet before v after g,
    INT16_MIN <= v <= INT16_MAX ->
    data packet = before ++ bytes_of_int16 order v ++ after ->
    ReadShort order packet (Z.of_nat (length before)) g
    = Ok (v, size_t_add (Z.of_nat (length before)) 2) g.
Proof.
  intros order packet before v after g Hv D.
  destruct (int16_bytes_round_trip order v Hv) as (b0 & b1 & Eb & R).
  rewrite Eb in D. rewrite <- R.
  apply ReadShort_in; [lia | |].
  - rewrite D, Nat2Z.id, lookup_app_r by lia.
    replace (length before - length before)%nat with 0%nat by lia. reflexivity.
  - rewrite D. replace (Z.to_nat (Z.of_nat (length before) + 1)) with (S (length before)) by lia.
    rewrite lookup_app_r by lia.
    replace (S (length before) - length before)%nat with 1%nat by lia. reflexivity.
Qed.

(** X3.  [ReadShort] reads back what a host-order 16-bit store wrote, at
    any place in a packet: when the data is [before], the two bytes of [v],
    then [after], reading at the length of [before] gives [v] and moves the
    cursor by two, for either byte order. *)
Theorem ReadShort_reads_back :
  forall order packet before v after g,
    INT16_MIN <= v <= INT16_MAX ->
    data packet = before ++ bytes_of_int16 order v ++ after ->
    ReadShort order packet (Z.of_nat (length before)) g
    = Ok (v, size_t_add (Z.of_nat (length before)) 2) g.
Proof. exact ReadShort_stored. Qed.

Section PositionReader.
Variable host_order : ByteOrder.

Lemma ReadShort_defined packet offset g :
  0 <= offset -> offset + 2 <= dataLength packet ->
  exists v, INT16_MIN <= v <= INT16_MAX /\
    ReadShort host_order packet offset g = Ok (v, size_t_add offset 2) g.
Proof.
  intros H0 H.
  destruct (data packet !! Z.to_nat offset) as [b0|] eqn:E0.
  2: { apply lookup_ge_None in E0. unfold dataLength in H. lia. }
  destruct (data packet !! Z.to_nat (offset + 1)) as [b1|] eqn:E1.
  2: { apply lookup_ge_None in E1. unfold dataLength in H. lia. }
  eexists. split; [|apply (ReadShort_in host_order packet offset b0 b1 g H0 E0 E1)].
  apply int16_of_bytes_range; apply byte_value_range.
Qed.

(** A short that does not fit before the end reads the byte at index
    [dataLength]. *)
Lemma ReadShort_short_of_data packet offset g :
  0 <= offset <= dataLength packet -> dataLength packet < offset + 2 ->
  ReadShort host_order packet offset g
  = Undefined (PacketOutOfBounds (dataLength packet)) g.
Proof.
  intros H0 H.
  assert (C : offset = dataLength packet \/ offset = dataLength packet - 1) by lia.
  destruct C as [->| ->]; [apply ReadShort_at_end | apply ReadShort_last; lia].
Qed.

End PositionReader.

Lemma ReadPosition_defined_cases order packet offset g :
  0 <= offset -> dataLength packet <= SIZE_MAX ->
  offset <= dataLength packet < offset + 4 ->
  ReadPosition order packet offset g
  = Undefined (PacketOutOfBounds (dataLength packet)) g.
Proof.
  intros H0 Hmax H. unfold ReadPosition.
  destruct (Z_lt_le_dec (dataLength packet) (offset + 2)) as [Hs|Hs].
  - apply bind_Undefined, ReadShort_short_of_data; lia.
  - destruct (ReadShort_defined order packet offset g H0 Hs) as (vx & Hx & Ex).
    rewrite size_t_add_small in Ex by lia.
    rewrite (bind_Ok _ _ _ _ _ Ex).
    apply bind_Undefined, ReadShort_short_of_data; lia.
Qed.

(** X4.  When [ReadPosition] is defined.  For a cursor inside a packet of
    at most [SIZE_MAX] bytes: with four bytes left it returns a position
    whose coordinates are integers in the range of [int16_t] and moves the
    cursor by four; with fewer than four bytes left it reads the byte at
    index [dataLength], outside the data.  With the cursor past the end it
    returns (0, 0) and leaves the cursor. *)
Theorem ReadPosition_defined :
  forall order packet offset g,
    0 <= offset -> dataLength packet <= SIZE_MAX ->
    (offset + 4 <= dataLength packet ->
       exists vx vy,
         INT16_MIN <= vx <= INT16_MAX /\ INT16_MIN <= vy <= INT16_MAX /\
         ReadPosition order packet offset g
         = Ok ({| x := inject_Z vx; y := inject_Z vy |}, offset + 4) g) /\
    (offset <= dataLength packet < offset + 4 ->
       ReadPosition order packet offset g
       = Undefined (PacketOutOfBounds (dataLength packet)) g) /\
    (dataLength packet < offset ->
       ReadPosition order packet offset g = Ok ({| x := 0; y := 0 |}, offset) g).
Proof.
  intros order packet offset g H0 Hmax. split; [|split].
  - intros H.
    destruct (ReadShort_defined order packet offset g H0) as (vx & Hx & Ex); [lia|].
    rewrite size_t_add_small in Ex by lia.
    destruct (ReadShort_defined order packet (offset + 2) g) as (vy & Hy & Ey); [lia|lia|].
    rewrite size_t_add_small in Ey by lia.
    exists vx, vy. split; [exact Hx|]. split; [exact Hy|].
    unfold ReadPosition. rewrite (bind_Ok _ _ _ _ _ Ex), (bind_Ok _ _ _ _ _ Ey).
    replace (offset + 2 + 2) with (offset + 4) by lia. reflexivity.
  - apply ReadPosition_defined_cases; assumption.
  - intros H. unfold ReadPosition.
    rewrite (bind_Ok _ _ _ _ _ (ReadShort_past order packet offset g H)).
    rewrite (bind_Ok _ _ _ _ _ (ReadShort_past order packet offset g H)).
    reflexivity.
Qed.

(** ** Commands on the wire *)

Lemma length_bytes_of_int16 order v : length (bytes_of_int16 order v) = 2%nat.
Proof. destruct order; reflexivity. Qed.

(** Reading a position stored after [before]. *)
Lemma ReadPosition_reads_back order packet before vx vy after g :
  INT16_MIN <= vx <= INT16_MAX -> INT16_MIN <= vy <= INT16_MAX ->
  Z.of_nat (length before) + 4 <= SIZE_MAX ->
  data packet = before ++ bytes_of_int16 order vx ++ bytes_of_int16 order vy ++ after ->
  ReadPosition order packet (Z.of_nat (length before)) g
  = Ok ({| x := inject_Z vx; y := inject_Z vy |}, Z.of_nat (length before) + 4) g.
Proof.
  intros Hx Hy Hmax D. unfold ReadPosition.
  rewrite (bind_Ok _ _ _ _ _
             (ReadShort_stored order packet before vx _ g Hx D)).
  rewrite size_t_add_small by lia.
  assert (D' : data packet
               = (before ++ bytes_of_int16 order vx) ++ bytes_of_int16 order vy ++ after)
    by (rewrite D, <- app_assoc; reflexivity).
  pose proof (ReadShort_stored order packet _ vy _ g Hy D') as E.
  rewrite length_app, length_bytes_of_int16 in E.
  replace (Z.of_nat (length before + 2)) with (Z.of_nat (length before) + 2) in E by lia.
  rewrite (bind_Ok _ _ _ _ _ E), size_t_add_small by lia.
  replace (Z.of_nat (length before) + 2 + 2) with (Z.of_nat (length before) + 4) by lia.
  reflexivity.
Qed.

(** ** Looking a player up *)

(** X5.  With a table of [MAX_PLAYERS] slots [GetPlayerPos] never leaves
    the table and never changes the globals; it answers with a position
    exactly when the id is in [0, MAX_PLAYERS) and that slot is active, and
    the position is the one stored in the slot. *)
Theorem GetPlayerPos_returns :
  forall MAX_PLAYERS id g,
    Players_sized MAX_PLAYERS g ->
    exists r,
      GetPlayerPos MAX_PLAYERS id g = Ok r g /\
      forall pos,
        r = Some pos <->
        (0 <= id < MAX_PLAYERS /\
         exists p, Players g !! Z.to_nat id = Some p /\ Active p = true /\ Position p = pos).
Proof.
  intros MAX_PLAYERS id g Hs. unfold GetPlayerPos.
  destruct ((id <? 0) || (id >=? MAX_PLAYERS)) eqn:G.
  - exists None. split; [reflexivity|]. intros pos. split; [discriminate|].
    intros [[H0 H1] _]. apply orb_true_iff in G as [G|G].
    + apply Z.ltb_lt in G. lia.
    + rewrite Z.geb_leb in G. apply Z.leb_le in G. lia.
  - apply orb_false_iff in G as [G0 G1]. apply Z.ltb_ge in G0.
    rewrite Z.geb_leb in G1. apply Z.leb_gt in G1.
    destruct (Players_at_in MAX_PLAYERS id g Hs (conj G0 G1)) as (p & Ep & E).
    rewrite (bind_Ok _ _ _ _ _ E).
    destruct (Active p) eqn:A; simpl.
    + rewrite (bind_Ok _ _ _ _ _ E). exists (Some (Position p)).
      split; [reflexivity|]. intros pos. split.
      * intros [= <-]. split; [lia|]. exists p. auto.
      * intros (_ & p' & Ep' & _ & <-). congruence.
    + exists None. split; [reflexivity|]. intros pos. split; [discriminate|].
      intros (_ & p' & Ep' & A' & _). congruence.
Qed.

Lemma GetPlayerPos_active MAX_PLAYERS id g p :
  0 <= id < MAX_PLAYERS -> Players g !! Z.to_nat id = Some p -> Active p = true ->
  GetPlayerPos MAX_PLAYERS id g = Ok (Some (Position p)) g.
Proof.
  intros [H0 H1] E A. unfold GetPlayerPos.
  rewrite (proj2 (Z.ltb_ge _ _) H0), Z.geb_leb, (proj2 (Z.leb_gt _ _) H1). simpl.
  assert (Ep : Players_at id g = Ok p g).
  { unfold Players_at. rewrite (proj2 (Z.ltb_ge _ _) H0), E. reflexivity. }
  rewrite (bind_Ok _ _ _ _ _ Ep), A. simpl. rewrite (bind_Ok _ _ _ _ _ Ep). reflexivity.
Qed.

Lemma GetPlayerPos_inactive MAX_PLAYERS id g p :
  0 <= id -> Players g !! Z.to_nat id = Some p -> Active p = false ->
  GetPlayerPos MAX_PLAYERS id g = Ok None g.
Proof.
  intros H0 E A. unfold GetPlayerPos.
  destruct (_ || _); [reflexivity|].
  assert (Ep : Players_at id g = Ok p g).
  { unfold Players_at. rewrite (proj2 (Z.ltb_ge _ _) H0), E. reflexivity. }
  rewrite (bind_Ok _ _ _ _ _ Ep), A. reflexivity.
Qed.

(** ** The joined commands *)

Section Commands.
Variable MAX_PLAYERS : Z.
Variable host_order : ByteOrder.

(** The frame of a joined session up to the handler of the command. *)
Lemma Update_joined_receive now peer packet tag rest g g1 :
  server g = Some peer ->
  send_input host_order peer now g = Ok tt g1 ->
  LocalPlayerId g <> -1 ->
  data packet = tag :: rest ->
  LocalPlayerId g1 = LocalPlayerId g /\ Players g1 = Players g /\
  Update MAX_PLAYERS host_order now (Some (ENET_EVENT_TYPE_RECEIVE packet)) g
  = bind (dispatch MAX_PLAYERS host_order (byte_value tag) packet 1)
      (fun flow => match flow with
                   | Break => ret tt
                   | Next => modify (add_call (enet_packet_destroy packet))
                   end) g1.
Proof.
  intros Hp E Hj D.
  pose proof (preserves_send_input host_order LocalPlayerId peer now
                (fun _ _ => eq_refl) (fun _ _ => eq_refl) g) as K1.
  pose proof (preserves_send_input host_order Players peer now
                (fun _ _ => eq_refl) (fun _ _ => eq_refl) g) as K2.
  rewrite E in K1, K2. unfold keeps in K1, K2. simpl in K1, K2.
  split; [exact K1|]. split; [exact K2|].
  rewrite (Update_connected _ _ _ _ _ peer Hp), (bind_Ok _ _ _ _ _ E).
  unfold on_event, receive. rewrite (dataLength_cons _ _ _ D).
  rewrite (bind_Ok _ _ _ _ _ (ReadByte_tag packet _ _ g1 D)), bind_gets, K1.
  destruct (LocalPlayerId g =? -1) eqn:L; [apply Z.eqb_eq in L; contradiction|].
  reflexivity.
Qed.

Lemma guard_passes id local :
  id < MAX_PLAYERS -> id <> local ->
  (id >=? MAX_PLAYERS) || (id =? local) = false.
Proof.
  intros H1 H2. rewrite Z.geb_leb, (proj2 (Z.leb_gt _ _) H1), (proj2 (Z.eqb_neq _ _) H2).
  reflexivity.
Qed.

Lemma HandleAddPlayer_adds packet b vx vy rest g p0 :
  data packet = x02 :: b :: bytes_of_int16 host_order vx ++ bytes_of_int16 host_order vy ++ rest ->
  INT16_MIN <= vx <= INT16_MAX -> INT16_MIN <= vy <= INT16_MAX ->
  byte_value b < MAX_PLAYERS -> byte_value b <> LocalPlayerId g ->
  Players g !! Z.to_nat (byte_value b) = Some p0 ->
  HandleAddPlayer MAX_PLAYERS host_order packet 1 g
  = Ok 6 (with_slot (Z.to_nat (byte_value b))
            {| Active := true; Position := {| x := inject_Z vx; y := inject_Z vy |} |} g).
Proof.
  intros D Hx Hy Hb Hl E0. pose proof (byte_value_range b) as Hr.
  pose proof (lookup_lt_Some _ _ _ E0) as Hi.
  unfold HandleAddPlayer.
  rewrite (bind_Ok _ _ _ _ _ (ReadByte_id packet _ _ _ g D)), bind_gets.
  rewrite guard_passes by assumption.
  rewrite (bind_Ok _ _ _ _ _ (Players_assign_in _ (set_Active true) g p0 (proj1 Hr) E0)).
  fold (with_slot (Z.to_nat (byte_value b)) (set_Active true p0) g).
  rewrite (bind_Ok _ _ _ _ _
             (ReadPosition_reads_back host_order packet [x02; b] vx vy rest _ Hx Hy
                ltac:(vm_compute; discriminate) D)).
  rewrite (bind_Ok _ _ _ _ _ (Players_assign_with_slot _ _ _ g (proj1 Hr) Hi)).
  reflexivity.
Qed.

Lemma HandleRemovePlayer_removes packet b rest g p0 :
  data packet = x03 :: b :: rest ->
  byte_value b < MAX_PLAYERS -> byte_value b <> LocalPlayerId g ->
  Players g !! Z.to_nat (byte_value b) = Some p0 ->
  HandleRemovePlayer MAX_PLAYERS packet 1 g
  = Ok 2 (with_slot (Z.to_nat (byte_value b))
            {| Active := false; Position := Position p0 |} g).
Proof.
  intros D Hb Hl E0. pose proof (byte_value_range b) as Hr.
  unfold HandleRemovePlayer.
  rewrite (bind_Ok _ _ _ _ _ (ReadByte_id packet _ _ _ g D)), bind_gets.
  rewrite guard_passes by assumption.
  rewrite (bind_Ok _ _ _ _ _ (Players_assign_in _ (set_Active false) g p0 (proj1 Hr) E0)).
  reflexivity.
Qed.

Lemma HandleUpdatePlayer_updates packet b vx vy rest g p0 :
  data packet = x04 :: b :: bytes_of_int16 host_order vx ++ bytes_of_int16 host_order vy ++ rest ->
  INT16_MIN <= vx <= INT16_MAX -> INT16_MIN <= vy <= INT16_MAX ->
  byte_value b < MAX_PLAYERS -> byte_value b <> LocalPlayerId g ->
  Players g !! Z.to_nat (byte_value b) = Some p0 ->
  HandleUpdatePlayer MAX_PLAYERS host_order packet 1 g
  = if Active p0
    then Ok 6 (with_slot (Z.to_nat (byte_value b))
                 {| Active := true; Position := {| x := inject_Z vx; y := inject_Z vy |} |} g)
    else Ok 2 g.
Proof.
  intros D Hx Hy Hb Hl E0. pose proof (byte_value_range b) as Hr.
  unfold HandleUpdatePlayer.
  rewrite (bind_Ok _ _ _ _ _ (ReadByte_id packet _ _ _ g D)), bind_gets.
  rewrite guard_passes by assumption.
  assert (Ep : Players_at (byte_value b) g = Ok p0 g).
  { unfold Players_at. rewrite (proj2 (Z.ltb_ge _ _) (proj1 Hr)), E0. reflexivity. }
  rewrite (bind_Ok _ _ _ _ _ Ep).
  destruct (Active p0) eqn:A; simpl; [|reflexivity].
  rewrite (bind_Ok _ _ _ _ _
             (ReadPosition_reads_back host_order packet [x04; b] vx vy rest _ Hx Hy
                ltac:(vm_compute; discriminate) D)).
  rewrite (bind_Ok _ _ _ _ _ (Players_assign_in _ _ g p0 (proj1 Hr) E0)).
  unfold set_Position. rewrite A. reflexivity.
Qed.

End Commands.

(** X6.  In a joined session an [AddPlayer] packet (tag 2, id byte, x and y
    as host-order shorts) for an id below [MAX_PLAYERS] other than the
    local one makes that slot active at the transmitted position, whatever
    it held, changes nothing else after the first half of the frame, and
    releases the packet; [GetPlayerPos] then answers with that position. *)
Theorem AddPlayer_adds :
  forall MAX_PLAYERS host_order now peer packet b vx vy rest g g1 p0,
    server g = Some peer ->
    send_input host_order peer now g = Ok tt g1 ->
    LocalPlayerId g <> -1 ->
    data packet
      = x02 :: b :: bytes_of_int16 host_order vx ++ bytes_of_int16 host_order vy ++ rest ->
    INT16_MIN <= vx <= INT16_MAX -> INT16_MIN <= vy <= INT16_MAX ->
    byte_value b < MAX_PLAYERS -> byte_value b <> LocalPlayerId g ->
    Players g !! Z.to_nat (byte_value b) = Some p0 ->
    let pos := {| x := inject_Z vx; y := inject_Z vy |} in
    let g' := add_call (enet_packet_destroy packet)
                (with_slot (Z.to_nat (byte_value b))
                   {| Active := true; Position := pos |} g1) in
    Update MAX_PLAYERS host_order now (Some (ENET_EVENT_TYPE_RECEIVE packet)) g = Ok tt g' /\
    GetPlayerPos MAX_PLAYERS (byte_value b) g' = Ok (Some pos) g'.
Proof.
  intros MAX_PLAYERS host_order now peer packet b vx vy rest g g1 p0
         Hp E Hj D Hx Hy Hb Hl E0 pos g'.
  pose proof (byte_value_range b) as Hr.
  destruct (Update_joined_receive MAX_PLAYERS host_order now peer packet _ _ g g1 Hp E Hj D)
    as (K1 & K2 & ->).
  rewrite <- K1 in Hl. rewrite <- K2 in E0.
  split.
  - unfold dispatch. change (byte_value "002" =? AddPlayer) with true. cbn iota.
    pose proof (HandleAddPlayer_adds MAX_PLAYERS host_order packet b vx vy rest g1 p0
                  D Hx Hy Hb Hl E0) as H.
    match goal with |- bind ?m _ _ = _ =>
      assert (Ed : m g1 = Ok Next (with_slot (Z.to_nat (byte_value b))
                                     {| Active := true; Position := pos |} g1))
        by (rewrite (bind_Ok _ _ _ _ _ H); reflexivity)
    end.
    rewrite (bind_Ok _ _ _ _ _ Ed). reflexivity.
  - apply (GetPlayerPos_active MAX_PLAYERS (byte_value b) g'
             {| Active := true; Position := pos |}); [lia| |reflexivity].
    simpl. apply list_lookup_insert_eq. eapply lookup_lt_Some, E0.
Qed.

(** X7.  In a joined session a [RemovePlayer] packet (tag 3, id byte) for
    an id below [MAX_PLAYERS] other than the local one marks that slot
    inactive and keeps its stored position, changes nothing else after the
    first half of the frame, and releases the packet; [GetPlayerPos] then
    answers with no position although the position is still stored. *)
Theorem RemovePlayer_removes :
  forall MAX_PLAYERS host_order now peer packet b rest g g1 p0,
    server g = Some peer ->
    send_input host_order peer now g = Ok tt g1 ->
    LocalPlayerId g <> -1 ->
    data packet = x03 :: b :: rest ->
    byte_value b < MAX_PLAYERS -> byte_value b <> LocalPlayerId g ->
    Players g !! Z.to_nat (byte_value b) = Some p0 ->
    let g' := add_call (enet_packet_destroy packet)
                (with_slot (Z.to_nat (byte_value b))
                   {| Active := false; Position := Position p0 |} g1) in
    Update MAX_PLAYERS host_order now (Some (ENET_EVENT_TYPE_RECEIVE packet)) g = Ok tt g' /\
    GetPlayerPos MAX_PLAYERS (byte_value b) g' = Ok None g' /\
    Position <$> Players g' !! Z.to_nat (byte_value b) = Some (Position p0).
Proof.
  intros MAX_PLAYERS host_order now peer packet b rest g g1 p0 Hp E Hj D Hb Hl E0 g'.
  pose proof (byte_value_range b) as Hr.
  destruct (Update_joined_receive MAX_PLAYERS host_order now peer packet _ _ g g1 Hp E Hj D)
    as (K1 & K2 & ->).
  rewrite <- K1 in Hl. rewrite <- K2 in E0.
  assert (Es : Players g' !! Z.to_nat (byte_value b)
               = Some {| Active := false; Position := Position p0 |}).
  { simpl. apply list_lookup_insert_eq. eapply lookup_lt_Some, E0. }
  split; [|split].
  - unfold dispatch. change (byte_value "003" =? AddPlayer) with false.
    change (byte_value "003" =? RemovePlayer) with true. cbn iota.
    pose proof (HandleRemovePlayer_removes MAX_PLAYERS packet b rest g1 p0 D Hb Hl E0) as H.
    match goal with |- bind ?m _ _ = _ =>
      assert (Ed : m g1 = Ok Next (with_slot (Z.to_nat (byte_value b))
                                     {| Active := false; Position := Position p0 |} g1))
        by (rewrite (bind_Ok _ _ _ _ _ H); reflexivity)
    end.
    rewrite (bind_Ok _ _ _ _ _ Ed). reflexivity.
  - apply (GetPlayerPos_inactive MAX_PLAYERS (byte_value b) g' _ (proj1 Hr) Es). reflexivity.
  - rewrite Es. reflexivity.
Qed.

(** X8.  In a joined session an [UpdatePlayer] packet (tag 4, id byte, x
    and y as host-order shorts) for an id below [MAX_PLAYERS] other than
    the local one overwrites the position of that slot when the slot is
    active, and is ignored when it is not: an inactive slot is neither
    moved nor activated.  Either way the packet is released and nothing
    else changes after the first half of the frame. *)
Theorem UpdatePlayer_moves_active_players_only :
  forall MAX_PLAYERS host_order now peer packet b vx vy rest g g1 p0,
    server g = Some peer ->
    send_input host_order peer now g = Ok tt g1 ->
    LocalPlayerId g <> -1 ->
    data packet
      = x04 :: b :: bytes_of_int16 host_order vx ++ bytes_of_int16 host_order vy ++ rest ->
    INT16_MIN <= vx <= INT16_MAX -> INT16_MIN <= vy <= INT16_MAX ->
    byte_value b < MAX_PLAYERS -> byte_value b <> LocalPlayerId g ->
    Players g !! Z.to_nat (byte_value b) = Some p0 ->
    Update MAX_PLAYERS host_order now (Some (ENET_EVENT_TYPE_RECEIVE packet)) g
    = Ok tt (add_call (enet_packet_destroy packet)
               (if Active p0
                then with_slot (Z.to_nat (byte_value b))
                       {| Active := true;
                          Position := {| x := inject_Z vx; y := inject_Z vy |} |} g1
                else g1)).
Proof.
  intros MAX_PLAYERS host_order now peer packet b vx vy rest g g1 p0
         Hp E Hj D Hx Hy Hb Hl E0.
  destruct (Update_joined_receive MAX_PLAYERS host_order now peer packet _ _ g g1 Hp E Hj D)
    as (K1 & K2 & ->).
  rewrite <- K1 in Hl. rewrite <- K2 in E0.
  unfold dispatch. change (byte_value "004" =? AddPlayer) with false.
  change (byte_value "004" =? RemovePlayer) with false.
  change (byte_value "004" =? UpdatePlayer) with true. cbn iota.
  pose proof (HandleUpdatePlayer_updates MAX_PLAYERS host_order packet b vx vy rest g1 p0
                D Hx Hy Hb Hl E0) as H.
  destruct (Active p0);
    match goal with |- bind ?m _ _ = Ok tt (add_call _ ?gs) =>
      assert (Ed : m g1 = Ok Next gs) by (rewrite (bind_Ok _ _ _ _ _ H); reflexivity)
    end;
    rewrite (bind_Ok _ _ _ _ _ Ed); reflexivity.
Qed.

(** ** Commands that are ignored *)

Section Ignored.
Variable MAX_PLAYERS : Z.
Variable host_order : ByteOrder.

Lemma handlers_ignore packet offset g id off :
  ReadByte packet offset g = Ok (id, off) g ->
  MAX_PLAYERS <= id \/ id = LocalPlayerId g ->
  HandleAddPlayer MAX_PLAYERS host_order packet offset g = Ok off g /\
  HandleRemovePlayer MAX_PLAYERS packet offset g = Ok off g /\
  HandleUpdatePlayer MAX_PLAYERS host_order packet offset g = Ok off g.
Proof.
  intros E H.
  assert (G : (id >=? MAX_PLAYERS) || (id =? LocalPlayerId g) = true).
  { apply orb_true_iff. destruct H as [H|H].
    - left. rewrite Z.geb_leb. apply Z.leb_le, H.
    - right. apply Z.eqb_eq, H. }
  unfold HandleAddPlayer, HandleRemovePlayer, HandleUpdatePlayer.
  rewrite !(bind_Ok _ _ _ _ _ E), !bind_gets, !G. auto.
Qed.

Lemma dispatch_unknown command packet offset g :
  command <> AddPlayer -> command <> RemovePlayer -> command <> UpdatePlayer ->
  dispatch MAX_PLAYERS host_order command packet offset g = Ok Next g.
Proof.
  intros H2 H3 H4. unfold dispatch.
  rewrite (proj2 (Z.eqb_neq _ _) H2), (proj2 (Z.eqb_neq _ _) H3),
    (proj2 (Z.eqb_neq _ _) H4). reflexivity.
Qed.

Lemma dispatch_ignored_id command packet b rest tag g :
  data packet = tag :: b :: rest ->
  MAX_PLAYERS <= byte_value b \/ byte_value b = LocalPlayerId g ->
  dispatch MAX_PLAYERS host_order command packet 1 g = Ok Next g.
Proof.
  intros D H.
  destruct (handlers_ignore packet 1 g _ _ (ReadByte_id packet _ _ _ g D) H)
    as (Ea & Er & Eu).
  unfold dispatch.
  destruct (command =? AddPlayer); [rewrite (bind_Ok _ _ _ _ _ Ea); reflexivity|].
  destruct (command =? RemovePlayer); [rewrite (bind_Ok _ _ _ _ _ Er); reflexivity|].
  destruct (command =? UpdatePlayer); [rewrite (bind_Ok _ _ _ _ _ Eu); reflexivity|].
  reflexivity.
Qed.

End Ignored.

(** X9.  While no id is assigned, a received packet whose first byte is
    not the [AcceptPlayer] tag changes nothing: the frame sends nothing,
    the globals stay as they were, and the only transport call is the
    release of the packet. *)
Theorem unjoined_ignores_other_commands :
  forall MAX_PLAYERS host_order now peer packet tag rest g,
    server g = Some peer ->
    LocalPlayerId g = -1 ->
    data packet = tag :: rest ->
    byte_value tag <> AcceptPlayer ->
    Update MAX_PLAYERS host_order now (Some (ENET_EVENT_TYPE_RECEIVE packet)) g
    = Ok tt (add_call (enet_packet_destroy packet) g).
Proof.
  intros MAX_PLAYERS host_order now peer packet tag rest g Hp Hu D Ht.
  rewrite (Update_connected _ _ _ _ _ peer Hp).
  assert (Hi : ~ input_due now g) by (intros [H0 _]; lia).
  rewrite (bind_Ok _ _ _ _ _ (send_input_idle host_order peer now g Hi)).
  unfold on_event, receive. rewrite (dataLength_cons _ _ _ D).
  rewrite (bind_Ok _ _ _ _ _ (ReadByte_tag packet _ _ g D)), bind_gets, Hu.
  change (-1 =? -1) with true. cbn iota.
  rewrite (proj2 (Z.eqb_neq _ _) Ht). reflexivity.
Qed.

Lemma Update_joined_ignored :
  forall MAX_PLAYERS host_order now peer packet tag rest g g1,
    server g = Some peer ->
    send_input host_order peer now g = Ok tt g1 ->
    LocalPlayerId g <> -1 ->
    data packet = tag :: rest ->
    (byte_value tag <> AddPlayer /\ byte_value tag <> RemovePlayer /\
     byte_value tag <> UpdatePlayer) \/
    (exists b rest', rest = b :: rest' /\
       (MAX_PLAYERS <= byte_value b \/ byte_value b = LocalPlayerId g)) ->
    Update MAX_PLAYERS host_order now (Some (ENET_EVENT_TYPE_RECEIVE packet)) g
    = Ok tt (add_call (enet_packet_destroy packet) g1).
Proof.
  intros MAX_PLAYERS host_order now peer packet tag rest g g1 Hp E Hj D H.
  destruct (Update_joined_receive MAX_PLAYERS host_order now peer packet _ _ g g1 Hp E Hj D)
    as (K1 & K2 & ->).
  destruct H as [(H2 & H3 & H4)|(b & rest' & -> & H)].
  - rewrite (bind_Ok _ _ _ _ _
               (dispatch_unknown MAX_PLAYERS host_order _ packet 1 g1 H2 H3 H4)).
    reflexivity.
  - rewrite <- K1 in H.
    rewrite (bind_Ok _ _ _ _ _
               (dispatch_ignored_id MAX_PLAYERS host_order _ packet b rest' tag g1 D H)).
    reflexivity.
Qed.

(** X10.  In a joined session a received packet is ignored, apart from
    being released, when its tag is none of [AddPlayer], [RemovePlayer],
    [UpdatePlayer] (so a second [AcceptPlayer] and an [UpdateInput] are
    ignored), and when the id it carries is the local id or is
    [MAX_PLAYERS] or more: the globals after the first half of the frame
    are kept, and the bytes after the id are never read. *)
Theorem joined_ignores :
  forall MAX_PLAYERS host_order now peer packet tag rest g g1,
    server g = Some peer ->
    send_input host_order peer now g = Ok tt g1 ->
    LocalPlayerId g <> -1 ->
    data packet = tag :: rest ->
    (byte_value tag <> AddPlayer /\ byte_value tag <> RemovePlayer /\
     byte_value tag <> UpdatePlayer) \/
    (exists b rest', rest = b :: rest' /\
       (MAX_PLAYERS <= byte_value b \/ byte_value b = LocalPlayerId g)) ->
    Update MAX_PLAYERS host_order now (Some (ENET_EVENT_TYPE_RECEIVE packet)) g
    = Ok tt (add_call (enet_packet_destroy packet) g1).
Proof. exact Update_joined_ignored. Qed.

(** ** The local slot belongs to the client *)

Section LocalSlot.
Variable MAX_PLAYERS : Z.
Variable host_order : ByteOrder.
Variable L : Z.
Hypothesis L_nonneg : 0 <= L.

Lemma Players_assign_elsewhere index h :
  0 <= index -> index <> L -> preserves (keeps (slot_of L)) (Players_assign index h).
Proof using L_nonneg.
  intros H0 Hne g. unfold Players_assign, bind.
  destruct (Players_at_shape index g) as [(p & _ & E)|E]; rewrite E; simpl.
  - unfold keeps, slot_of. simpl. apply list_lookup_insert_ne. lia.
  - reflexivity.
Qed.

Lemma handlers_keep_local_slot packet offset g :
  LocalPlayerId g = L ->
  keeps (slot_of L) g (final (HandleAddPlayer MAX_PLAYERS host_order packet offset g)) /\
  keeps (slot_of L) g (final (HandleRemovePlayer MAX_PLAYERS packet offset g)) /\
  keeps (slot_of L) g (final (HandleUpdatePlayer MAX_PLAYERS host_order packet offset g)).
Proof using L_nonneg.
  intros Hl. unfold HandleAddPlayer, HandleRemovePlayer, HandleUpdatePlayer.
  destruct (ReadByte_shape packet offset g) as [(v & off & Hv & E)|(i & E)].
  2: { rewrite !(bind_Undefined _ _ _ _ _ E). repeat split. }
  rewrite !(bind_Ok _ _ _ _ _ E), !bind_gets, Hl.
  destruct ((v >=? MAX_PLAYERS) || (v =? L)) eqn:G; [repeat split|].
  apply (handler_guard_false MAX_PLAYERS) in G as [_ Hne].
  pose proof (Players_assign_elsewhere v) as Ha.
  split; [|split].
  - refine ((_ : preserves (keeps (slot_of L)) (bind _ _)) g).
    preserve; apply Ha; lia.
  - refine ((_ : preserves (keeps (slot_of L)) (bind _ _)) g).
    preserve; apply Ha; lia.
  - refine ((_ : preserves (keeps (slot_of L)) (bind _ _)) g).
    preserve; apply Ha; lia.
Qed.

Lemma dispatch_keeps_local_slot command packet offset g :
  LocalPlayerId g = L ->
  keeps (slot_of L) g (final (dispatch MAX_PLAYERS host_order command packet offset g)).
Proof using L_nonneg.
  intros Hl. destruct (handlers_keep_local_slot packet offset g Hl) as (Ha & Hr & Hu).
  unfold dispatch.
  destruct (command =? AddPlayer).
  { unfold bind. destruct (HandleAddPlayer _ _ _ _ g); exact Ha. }
  destruct (command =? RemovePlayer).
  { unfold bind. destruct (HandleRemovePlayer _ _ _ g); exact Hr. }
  destruct (command =? UpdatePlayer).
  { unfold bind. destruct (HandleUpdatePlayer _ _ _ _ g); exact Hu. }
  reflexivity.
Qed.

Lemma receive_keeps_local_slot packet g :
  LocalPlayerId g = L ->
  keeps (slot_of L) g (final (receive MAX_PLAYERS host_order packet g)).
Proof using L_nonneg.
  intros Hl. unfold receive.
  destruct (dataLength packet <? 1); [reflexivity|].
  destruct (ReadByte_shape packet 0 g) as [(v & off & _ & E)|(i & E)].
  2: { rewrite (bind_Undefined _ _ _ _ _ E). reflexivity. }
  rewrite (bind_Ok _ _ _ _ _ E), bind_gets, Hl.
  destruct (L =? -1) eqn:U; [apply Z.eqb_eq in U; lia|].
  pose proof (dispatch_keeps_local_slot v packet off g Hl) as Hd.
  unfold bind.
  destruct (dispatch MAX_PLAYERS host_order v packet off g) as [[|] g1|u g1];
    simpl in *; exact Hd.
Qed.

End LocalSlot.

(** X11.  No frame changes the slot of the local player: for an assigned
    id (0 or more), whatever event [Update] polls and however the frame
    ends, the slot [Players[LocalPlayerId]] is afterwards what it was
    before.  Only [UpdateLocalPlayer] moves the local player. *)
Theorem Update_keeps_local_slot :
  forall MAX_PLAYERS host_order now polled g,
    0 <= LocalPlayerId g ->
    Players (final (Update MAX_PLAYERS host_order now polled g))
      !! Z.to_nat (LocalPlayerId g)
    = Players g !! Z.to_nat (LocalPlayerId g).
Proof.
  intros MAX_PLAYERS host_order now polled g H0.
  destruct (server g) as [peer|] eqn:S.
  2: { rewrite Update_disconnected by exact S. reflexivity. }
  rewrite (Update_connected _ _ _ _ _ peer S).
  pose proof (preserves_send_input host_order LocalPlayerId peer now
                (fun _ _ => eq_refl) (fun _ _ => eq_refl) g) as K1.
  pose proof (preserves_send_input host_order Players peer now
                (fun _ _ => eq_refl) (fun _ _ => eq_refl) g) as K2.
  unfold bind. destruct (send_input host_order peer now g) as [[] g1|u g1];
    unfold keeps in K1, K2; simpl in K1, K2 |- *; [|rewrite K2; reflexivity].
  rewrite <- K2.
  destruct polled as [[| | |packet|]|]; simpl; try reflexivity.
  apply (receive_keeps_local_slot MAX_PLAYERS host_order (LocalPlayerId g) H0 packet g1 K1).
Qed.

(** ** What every reachable state satisfies *)

Section Invariant.
Variable MAX_PLAYERS : Z.
Variable host_order : ByteOrder.

(** The id [accept] leaves behind. *)
Lemma accept_id packet offset g :
  LocalPlayerId g = -1 ->
  let g' := final (accept MAX_PLAYERS packet offset g) in
  LocalPlayerId g' = -1 \/
  (0 <= LocalPlayerId g' <= MAX_PLAYERS /\
   exists off, ReadByte packet offset g = Ok (LocalPlayerId g', off) g).
Proof.
  intros Hu. simpl. unfold accept.
  destruct (ReadByte_shape packet offset g) as [(v & off & Hv & E)|(i & E)].
  2: { rewrite (bind_Undefined _ _ _ _ _ E). left. exact Hu. }
  rewrite (bind_Ok _ _ _ _ _ E), bind_modify, bind_gets.
  cbn [LocalPlayerId set_LocalPlayerId]. rewrite accept_guard by lia.
  destruct (MAX_PLAYERS <? v) eqn:G.
  - left. reflexivity.
  - apply Z.ltb_ge in G. right.
    rewrite bind_modify.
    set (g1 := set_LastInputSend _ _).
    assert (K : LocalPlayerId (final
                 ((do local <- gets LocalPlayerId ;;
                   do _ <- Players_assign local (set_Active true) ;;
                   do local0 <- gets LocalPlayerId ;;
                   do _ <- Players_assign local0 (set_Position {| x := 100; y := 100 |}) ;;
                   ret Next) g1)) = LocalPlayerId g1).
    { refine ((_ : preserves (keeps LocalPlayerId) (bind _ _)) g1).
      preserve; apply preserves_Players_assign, ignores_slots_LocalPlayerId. }
    rewrite K. simpl. split; [lia|]. exists off. exact E.
Qed.

Lemma receive_id packet g :
  LocalPlayerId g = -1 \/ 0 <= LocalPlayerId g <= MAX_PLAYERS ->
  let g' := final (receive MAX_PLAYERS host_order packet g) in
  LocalPlayerId g' = -1 \/ 0 <= LocalPlayerId g' <= MAX_PLAYERS.
Proof.
  intros H. simpl.
  destruct (Z.eq_dec (LocalPlayerId g) (-1)) as [Hu|Hj].
  2: { rewrite (receive_joined MAX_PLAYERS host_order LocalPlayerId packet g
                  ignores_slots_LocalPlayerId (fun _ _ => eq_refl) Hj). exact H. }
  unfold receive. destruct (dataLength packet <? 1); [exact H|].
  destruct (ReadByte_shape packet 0 g) as [(v & off & _ & E)|(i & E)].
  2: { rewrite (bind_Undefined _ _ _ _ _ E). exact H. }
  rewrite (bind_Ok _ _ _ _ _ E), bind_gets, Hu. change (-1 =? -1) with true. cbn iota.
  destruct (v =? AcceptPlayer); [|rewrite bind_ret; exact H].
  pose proof (accept_id packet off g Hu) as Ha. simpl in Ha.
  unfold bind. destruct (accept MAX_PLAYERS packet off g) as [[|] g1|u g1];
    simpl in *; tauto.
Qed.

Lemma Update_invariant now polled g :
  session_invariant MAX_PLAYERS g ->
  session_invariant MAX_PLAYERS (final (Update MAX_PLAYERS host_order now polled g)).
Proof.
  intros [Hs Hi]. destruct (server g) as [peer|] eqn:S.
  2: { rewrite Update_disconnected by exact S. split; assumption. }
  rewrite (Update_connected _ _ _ _ _ peer S).
  pose proof (preserves_send_input host_order LocalPlayerId peer now
                (fun _ _ => eq_refl) (fun _ _ => eq_refl) g) as K1.
  pose proof (preserves_send_input host_order (fun g => length (Players g)) peer now
                (fun _ _ => eq_refl) (fun _ _ => eq_refl) g) as K2.
  pose proof (on_event_keeps_length MAX_PLAYERS host_order polled) as K3.
  unfold bind. destruct (send_input host_order peer now g) as [[] g1|u g1];
    unfold keeps in K1, K2; simpl in K1, K2 |- *.
  2: { split; [unfold Players_sized in *; congruence | rewrite K1; exact Hi]. }
  split.
  - unfold Players_sized in *. rewrite (K3 g1). congruence.
  - rewrite <- K1 in Hi.
    destruct polled as [[| | |packet|]|]; simpl; try exact Hi.
    + left. reflexivity.
    + apply receive_id, Hi.
Qed.

End Invariant.

Lemma UpdateLocalPlayer_keeps {B} (f : Globals -> B) W H P movementDelta :
  ignores_slots f -> preserves (keeps f) (UpdateLocalPlayer W H P movementDelta).
Proof.
  intros Hf. unfold UpdateLocalPlayer.
  preserve; apply preserves_Players_assign, Hf.
Qed.

(** X12.  The invariant of the session.  The initial globals have a table
    of [MAX_PLAYERS] slots and no id; every frame of [Update], whatever it
    polls and however it ends, and every [UpdateLocalPlayer] keep the table
    at [MAX_PLAYERS] slots and the id either unset (-1) or between 0 and
    [MAX_PLAYERS], the upper end included; so does any sequence of
    frames. *)
Theorem session_invariant_kept :
  forall MAX_PLAYERS host_order,
    session_invariant MAX_PLAYERS (Globals_init MAX_PLAYERS) /\
    (forall now polled g,
       session_invariant MAX_PLAYERS g ->
       session_invariant MAX_PLAYERS (final (Update MAX_PLAYERS host_order now polled g))) /\
    (forall W H P movementDelta g,
       session_invariant MAX_PLAYERS g ->
       session_invariant MAX_PLAYERS (final (UpdateLocalPlayer W H P movementDelta g))) /\
    (forall now events g,
       session_invariant MAX_PLAYERS g ->
       session_invariant MAX_PLAYERS
         (final (Updates MAX_PLAYERS host_order now events g))).
Proof.
  intros MAX_PLAYERS host_order. split; [|split; [|split]].
  - split; [|left; reflexivity].
    unfold Players_sized. simpl. apply length_replicate.
  - apply Update_invariant.
  - intros W H P movementDelta g [Hs Hi].
    pose proof (UpdateLocalPlayer_keeps LocalPlayerId W H P movementDelta
                  ignores_slots_LocalPlayerId g) as K1.
    pose proof (UpdateLocalPlayer_keeps (fun g => length (Players g)) W H P movementDelta
                  ignores_slots_length g) as K2.
    unfold keeps in K1, K2. split.
    + unfold Players_sized in *. congruence.
    + rewrite K1. exact Hi.
  - intros now events. induction events as [|e rest IH]; intros g Hg; [exact Hg|].
    simpl. pose proof (Update_invariant MAX_PLAYERS host_order now e g Hg) as H1.
    unfold bind. destruct (Update MAX_PLAYERS host_order now e g) as [[] g1|u g1];
      simpl in *; [apply IH, H1 | exact H1].
Qed.

(** ** How a session becomes connected *)

Lemma Connected_value g :
  Connected g = Ok (bool_decide (server g <> None) && (LocalPlayerId g >=? 0)) g.
Proof. reflexivity. Qed.

Lemma Connected_true g :
  Connected g = Ok true g <-> server g <> None /\ 0 <= LocalPlayerId g.
Proof.
  rewrite Connected_value. split.
  - intros [= H]. apply andb_true_iff in H as [H1 H2].
    apply bool_decide_eq_true in H1. rewrite Z.geb_leb in H2. apply Z.leb_le in H2. auto.
  - intros [H1 H2]. f_equal. apply andb_true_iff. split.
    + apply bool_decide_eq_true, H1.
    + rewrite Z.geb_leb. apply Z.leb_le, H2.
Qed.

(** X13.  Only an acceptance connects.  If [Connected] answers false
    before a frame and true after it, then no id was assigned, the frame
    received a packet that starts with the [AcceptPlayer] tag and an id
    byte, and the id is now that byte, which is at most [MAX_PLAYERS]. *)
Theorem only_AcceptPlayer_connects :
  forall MAX_PLAYERS host_order now polled g,
    let g' := final (Update MAX_PLAYERS host_order now polled g) in
    Connected g = Ok false g ->
    Connected g' = Ok true g' ->
    LocalPlayerId g = -1 /\
    exists packet tag b rest,
      polled = Some (ENET_EVENT_TYPE_RECEIVE packet) /\
      data packet = tag :: b :: rest /\
      byte_value tag = AcceptPlayer /\
      LocalPlayerId g' = byte_value b /\
      byte_value b <= MAX_PLAYERS.
Proof.
  intros MAX_PLAYERS host_order now polled g g' Hc Hc'.
  apply Connected_true in Hc' as [Hs' Hi']. unfold g' in *. clear g'.
  destruct (server g) as [peer|] eqn:S.
  2: { rewrite Update_disconnected in Hs' by exact S. simpl in Hs'. congruence. }
  assert (Hneg : LocalPlayerId g < 0).
  { destruct (Z_lt_le_dec (LocalPlayerId g) 0) as [H|H]; [exact H|].
    assert (Ht : Connected g = Ok true g)
      by (apply Connected_true; split; [congruence | exact H]).
    congruence. }
  assert (Hidle : ~ input_due now g) by (intros [H0 _]; lia).
  rewrite (Update_connected _ _ _ _ _ peer S) in Hs', Hi' |- *.
  rewrite (bind_Ok _ _ _ _ _ (send_input_idle host_order peer now g Hidle)) in Hs', Hi' |- *.
  destruct polled as [[| | |packet|]|]; simpl in Hs', Hi'; try lia; try congruence.
  destruct (Z.eq_dec (LocalPlayerId g) (-1)) as [Hu|Hj].
  2: { rewrite (receive_joined MAX_PLAYERS host_order LocalPlayerId packet g
                  ignores_slots_LocalPlayerId (fun _ _ => eq_refl) Hj) in Hi'. lia. }
  split; [exact Hu|]. exists packet.
  unfold on_event, receive in Hi' |- *.
  destruct (dataLength packet <? 1) eqn:Hlen; [simpl in Hi'; lia|].
  destruct (data packet) as [|tag rest0] eqn:D.
  { unfold dataLength in Hlen. rewrite D in Hlen. discriminate Hlen. }
  assert (D' : data packet = tag :: rest0) by exact D.
  rewrite (bind_Ok _ _ _ _ _ (ReadByte_tag packet _ _ g D')), bind_gets, Hu in Hi' |- *.
  change (-1 =? -1) with true in Hi' |- *. cbn iota in Hi' |- *.
  destruct (byte_value tag =? AcceptPlayer) eqn:T.
  2: { rewrite bind_ret in Hi'. simpl in Hi'. lia. }
  apply Z.eqb_eq in T.
  pose proof (accept_id MAX_PLAYERS packet 1 g Hu) as Ha. simpl in Ha.
  assert (Hfin : LocalPlayerId (final (accept MAX_PLAYERS packet 1 g)) >= 0).
  { unfold bind in Hi'.
    destruct (accept MAX_PLAYERS packet 1 g) as [[|] g1|u g1]; simpl in *; lia. }
  assert (Heq : LocalPlayerId
                  (final ((do flow <- accept MAX_PLAYERS packet 1 ;;
                           match flow with
                           | Next => modify (add_call (enet_packet_destroy packet))
                           | Break => ret tt
                           end) g))
                = LocalPlayerId (final (accept MAX_PLAYERS packet 1 g))).
  { unfold bind. destruct (accept MAX_PLAYERS packet 1 g) as [[|] g1|u g1]; reflexivity. }
  destruct Ha as [Ha|(Hr & off & E)]; [lia|].
  apply ReadByte_Ok_inv in E as (_ & _ & [(Hp & _)|(_ & _ & b & Eb & Ev)]).
  { unfold dataLength in Hp. rewrite D in Hp. simpl in Hp. lia. }
  rewrite D in Eb. destruct rest0 as [|b' rest]; [discriminate Eb|].
  injection Eb as ->.
  exists tag, b, rest. split; [reflexivity|]. split; [reflexivity|].
  split; [exact T|]. rewrite Heq. split; [exact Ev | lia].
Qed.

(** ** The position that goes out *)



(** ** Connecting and disconnecting *)

(** X15.  After [Disconnect] nothing runs: [Connected] answers false and
    any sequence of frames, whatever events it is given, returns at once
    with the globals unchanged and no transport call.  A second
    [Disconnect] changes no global and calls only [enet_deinitialize]. *)
Theorem Disconnect_stops_the_frames :
  forall MAX_PLAYERS host_order p,
    let g := globals (Disconnect p) in
    Connected g = Ok false g /\
    (forall now events, Updates MAX_PLAYERS host_order now events g = Ok tt g) /\
    globals (Disconnect (Disconnect p)) = g /\
    client (Disconnect (Disconnect p)) = client (Disconnect p) /\
    lifecycle (Disconnect (Disconnect p)) = lifecycle (Disconnect p) ++ [enet_deinitialize].
Proof.
  intros MAX_PLAYERS host_order p g. split; [reflexivity|]. split; [|repeat split].
  intros now events. induction events as [|e rest IH]; [reflexivity|].
  simpl. rewrite (bind_Ok _ _ _ _ _
                    (Update_disconnected MAX_PLAYERS host_order now e g eq_refl)).
  exact IH.
Qed.

(** X16.  [Disconnect] does not unset the id, and neither does [Connect].
    So when a session that had an id (0 or more) is disconnected with
    [Disconnect] and connected again, [Connected] answers true as soon as
    [enet_host_connect] has returned a peer, before any acceptance; the id,
    the table and the timer are those of the old session; and the
    [AcceptPlayer] of the new connection is ignored like any unknown
    command of a joined session: it is released and the id stays. *)
Theorem Disconnect_keeps_the_id :
  forall MAX_PLAYERS host_order created resolved peer p,
    0 <= LocalPlayerId (globals p) ->
    let g := globals (Connect created resolved (Some peer) (Disconnect p)) in
    Connected g = Ok true g /\
    LocalPlayerId g = LocalPlayerId (globals p) /\
    Players g = Players (globals p) /\
    LastInputSend g = LastInputSend (globals p) /\
    (forall now packet rest g1,
       send_input host_order peer now g = Ok tt g1 ->
       data packet = x01 :: rest ->
       Update MAX_PLAYERS host_order now (Some (ENET_EVENT_TYPE_RECEIVE packet)) g
         = Ok tt (add_call (enet_packet_destroy packet) g1) /\
       LocalPlayerId (add_call (enet_packet_destroy packet) g1)
         = LocalPlayerId (globals p)).
Proof.
  intros MAX_PLAYERS host_order created resolved peer p H0 g.
  split; [|split; [reflexivity|split; [reflexivity|split; [reflexivity|]]]].
  - apply Connected_true. split; [discriminate | exact H0].
  - intros now packet rest g1 E D. split.
    + apply (Update_joined_ignored MAX_PLAYERS host_order now peer packet x01 rest g g1);
        [reflexivity | exact E | simpl; lia | exact D |].
      left. repeat split; discriminate.
    + pose proof (preserves_send_input host_order LocalPlayerId peer now
                    (fun _ _ => eq_refl) (fun _ _ => eq_refl) g) as K.
      rewrite E in K. exact K.
Qed.

(** ** Commands cut short *)

Section CutShort.
Variable MAX_PLAYERS : Z.
Variable host_order : ByteOrder.

Lemma dispatch_tag_alone command packet tag g :
  data packet = [tag] ->
  command = AddPlayer \/ command = RemovePlayer \/ command = UpdatePlayer ->
  dispatch MAX_PLAYERS host_order command packet 1 g
  = Undefined (PacketOutOfBounds 1) g.
Proof.
  intros D Hc.
  assert (E : ReadByte packet 1 g = Undefined (PacketOutOfBounds 1) g).
  { pose proof (ReadByte_at_end packet g) as H. unfold dataLength in H.
    rewrite D in H. exact H. }
  unfold dispatch, HandleAddPlayer, HandleRemovePlayer, HandleUpdatePlayer.
  destruct Hc as [->|[->| ->]]; simpl;
    rewrite (bind_Undefined _ _ _ _ _ (bind_Undefined _ _ _ _ _ E)); reflexivity.
Qed.

Lemma ReadPosition_cut packet tag b rest g :
  data packet = tag :: b :: rest -> (length rest < 4)%nat ->
  ReadPosition host_order packet 2 g
  = Undefined (PacketOutOfBounds (dataLength packet)) g.
Proof.
  intros D Hl.
  assert (Hd : dataLength packet = 2 + Z.of_nat (length rest)).
  { unfold dataLength. rewrite D. simpl length. lia. }
  apply (ReadPosition_defined_cases host_order packet 2 g); [lia | | lia].
  rewrite Hd. unfold SIZE_MAX. lia.
Qed.

End CutShort.

(** X17.  Joined commands need their whole payload.  In a joined session
    an [AddPlayer], [RemovePlayer] or [UpdatePlayer] packet that is its tag
    alone makes the handler read the id at index 1, outside the data.  An
    [AddPlayer] for a valid id followed by fewer than four bytes marks the
    slot active and then reads the position past the end of the data; an
    [UpdatePlayer] for an active slot does the same without touching the
    slot. *)
Theorem commands_cut_short_read_past_the_end :
  forall MAX_PLAYERS host_order now peer packet tag rest g g1,
    server g = Some peer ->
    send_input host_order peer now g = Ok tt g1 ->
    LocalPlayerId g <> -1 ->
    data packet = tag :: rest ->
    (rest = [] ->
     byte_value tag = AddPlayer \/ byte_value tag = RemovePlayer \/
     byte_value tag = UpdatePlayer ->
     Update MAX_PLAYERS host_order now (Some (ENET_EVENT_TYPE_RECEIVE packet)) g
     = Undefined (PacketOutOfBounds 1) g1) /\
    (forall b rest' p0,
       rest = b :: rest' -> (length rest' < 4)%nat ->
       byte_value b < MAX_PLAYERS -> byte_value b <> LocalPlayerId g ->
       Players g !! Z.to_nat (byte_value b) = Some p0 ->
       (byte_value tag = AddPlayer ->
        Update MAX_PLAYERS host_order now (Some (ENET_EVENT_TYPE_RECEIVE packet)) g
        = Undefined (PacketOutOfBounds (dataLength packet))
            (with_slot (Z.to_nat (byte_value b))
               {| Active := true; Position := Position p0 |} g1)) /\
       (byte_value tag = UpdatePlayer -> Active p0 = true ->
        Update MAX_PLAYERS host_order now (Some (ENET_EVENT_TYPE_RECEIVE packet)) g
        = Undefined (PacketOutOfBounds (dataLength packet)) g1)).
Proof.
  intros MAX_PLAYERS host_order now peer packet tag rest g g1 Hp E Hj D.
  destruct (Update_joined_receive MAX_PLAYERS host_order now peer packet _ _ g g1 Hp E Hj D)
    as (K1 & K2 & ->).
  split.
  - intros -> Ht.
    apply bind_Undefined.
    apply (dispatch_tag_alone MAX_PLAYERS host_order _ packet tag g1 D Ht).
  - intros b rest' p0 -> Hl Hb Hne E0.
    pose proof (byte_value_range b) as Hr.
    rewrite <- K1 in Hne. rewrite <- K2 in E0.
    split.
    + intros Ht. apply bind_Undefined. unfold dispatch. rewrite Ht. simpl.
      apply bind_Undefined. unfold HandleAddPlayer.
      rewrite (bind_Ok _ _ _ _ _ (ReadByte_id packet _ _ _ g1 D)), bind_gets.
      rewrite guard_passes by assumption.
      rewrite (bind_Ok _ _ _ _ _
                 (Players_assign_in _ (set_Active true) g1 p0 (proj1 Hr) E0)).
      apply bind_Undefined.
      apply (ReadPosition_cut host_order packet tag b rest' _ D Hl).
    + intros Ht Ha. apply bind_Undefined. unfold dispatch. rewrite Ht. simpl.
      apply bind_Undefined. unfold HandleUpdatePlayer.
      rewrite (bind_Ok _ _ _ _ _ (ReadByte_id packet _ _ _ g1 D)), bind_gets.
      rewrite guard_passes by assumption.
      assert (Ep : Players_at (byte_value b) g1 = Ok p0 g1).
      { unfold Players_at. rewrite (proj2 (Z.ltb_ge _ _) (proj1 Hr)), E0. reflexivity. }
      rewrite (bind_Ok _ _ _ _ _ Ep), Ha. simpl.
      apply bind_Undefined.
      apply (ReadPosition_cut host_order packet tag b rest' _ D Hl).
Qed.

(** ** What a disconnect event leaves in the table *)

Lemma disconnect_frame MAX_PLAYERS host_order now peer g g1 :
  server g = Some peer ->
  Update MAX_PLAYERS host_order now (Some ENET_EVENT_TYPE_DISCONNECT) g = Ok tt g1 ->
  LocalPlayerId g1 = -1 /\ server g1 = None /\ Players g1 = Players g.
Proof.
  intros Hp E. rewrite (Update_connected _ _ _ _ _ peer Hp) in E.
  pose proof (preserves_send_input host_order Players peer now
                (fun _ _ => eq_refl) (fun _ _ => eq_refl) g) as K.
  unfold bind in E. destruct (send_input host_order peer now g) as [[] g2|u g2];
    [|discriminate].
  simpl in E. injection E as <-. unfold keeps in K. simpl in K. auto.
Qed.

(** X18.  A disconnect event does not clear the table.  When a joined
    session with an active local slot gets a disconnect event, connects
    again and is accepted under another id, the slot of the old id is
    still active: [GetPlayerPos] of the old id answers with the position
    the local player had, now as if it were a remote player. *)
Theorem previous_player_stays_in_the_table :
  forall MAX_PLAYERS host_order now now' peer created resolved peer' pr g1 packet b rest p,
    Players_sized MAX_PLAYERS (globals pr) ->
    server (globals pr) = Some peer ->
    0 <= LocalPlayerId (globals pr) < MAX_PLAYERS ->
    Players (globals pr) !! Z.to_nat (LocalPlayerId (globals pr)) = Some p ->
    Active p = true ->
    Update MAX_PLAYERS host_order now (Some ENET_EVENT_TYPE_DISCONNECT) (globals pr)
      = Ok tt g1 ->
    data packet = x01 :: b :: rest ->
    byte_value b < MAX_PLAYERS ->
    byte_value b <> LocalPlayerId (globals pr) ->
    let q := Connect created resolved (Some peer')
               {| globals := g1; client := client pr; address := address pr;
                  lifecycle := lifecycle pr |} in
    exists g3,
      Update MAX_PLAYERS host_order now' (Some (ENET_EVENT_TYPE_RECEIVE packet)) (globals q)
        = Ok tt g3 /\
      LocalPlayerId g3 = byte_value b /\
      GetPlayerPos MAX_PLAYERS (LocalPlayerId (globals pr)) g3 = Ok (Some (Position p)) g3.
Proof.
  intros MAX_PLAYERS host_order now now' peer created resolved peer' pr g1 packet b rest p
         Hs Hp Hi E Ha Ed D Hb Hne q.
  destruct (disconnect_frame MAX_PLAYERS host_order now peer _ g1 Hp Ed) as (Hu & _ & HP).
  pose proof (byte_value_range b) as Hr.
  set (g2 := globals q).
  assert (Hs2 : Players_sized MAX_PLAYERS g2)
    by (unfold Players_sized in *; simpl; congruence).
  assert (Hidle : ~ input_due now' g2) by (intros [H0 _]; simpl in H0; lia).
  exists (accepted_as (byte_value b) packet g2). split; [|split; [reflexivity|]].
  - rewrite (Update_connected _ _ _ _ g2 peer' eq_refl).
    rewrite (bind_Ok _ _ _ _ _ (send_input_idle host_order peer' now' g2 Hidle)).
    apply (receive_AcceptPlayer MAX_PLAYERS host_order packet b rest g2 Hs2 Hu D Hb).
  - apply GetPlayerPos_active; [exact Hi | | exact Ha].
    simpl. rewrite list_lookup_insert_ne by lia. rewrite HP. exact E.
Qed.

(** ** The spacing of the input updates *)

Section Spacing.
Variable MAX_PLAYERS : Z.
Variable host_order : ByteOrder.

Lemma Update_sends_mono now polled g :
  (sends (enet g) <= sends (enet (final (Update MAX_PLAYERS host_order now polled g))))%nat.
Proof.
  destruct (Update_send_or_not MAX_PLAYERS host_order now polled g) as [H|(_ & H & _)];
    simpl in H; lia.
Qed.

Lemma Frames_sends_mono frames : forall g,
  (sends (enet g) <= sends (enet (final (Frames MAX_PLAYERS host_order frames g))))%nat.
Proof.
  induction frames as [|[t e] rest IH]; intros g; [simpl; lia|].
  simpl. pose proof (Update_sends_mono t e g) as H1. unfold bind.
  destruct (Update MAX_PLAYERS host_order t e g) as [[] g1|u g1]; simpl in *.
  - specialize (IH g1). lia.
  - exact H1.
Qed.

(** A frame that sends nothing keeps the stamp of the last send. *)
Lemma Update_quiet_stamped t now polled g :
  stamped t g ->
  sends (enet (final (Update MAX_PLAYERS host_order now polled g))) = sends (enet g) ->
  stamped t (final (Update MAX_PLAYERS host_order now polled g)).
Proof.
  intros Hst Hq. destruct (server g) as [peer|] eqn:S.
  2: { rewrite Update_disconnected by exact S. exact Hst. }
  destruct Hst as [Hn|[Hj Hl]]; [congruence|].
  rewrite (Update_connected _ _ _ _ _ peer S) in Hq |- *.
  pose proof (on_event_keeps_sends MAX_PLAYERS host_order polled) as Hk.
  destruct (send_input_cases host_order peer now g)
    as [[_ E]|[(Hdue & buffer & _ & E)|(_ & u & E)]].
  - rewrite (bind_Ok _ _ _ _ _ E).
    destruct (on_event_joined MAX_PLAYERS host_order polled g Hj) as [Hl' Hs].
    destruct Hs as [Hs|[Hs _]]; [left; exact Hs|right].
    rewrite Hs, Hl'. auto.
  - rewrite (bind_Ok _ _ _ _ _ E) in Hq. rewrite (Hk _) in Hq.
    simpl in Hq. rewrite sends_app in Hq. simpl in Hq. lia.
  - rewrite (bind_Undefined _ _ _ _ _ E). right. auto.
Qed.

Lemma Frames_quiet_stamped t frames : forall g,
  stamped t g ->
  sends (enet (final (Frames MAX_PLAYERS host_order frames g))) = sends (enet g) ->
  stamped t (final (Frames MAX_PLAYERS host_order frames g)).
Proof.
  induction frames as [|[now e] rest IH]; intros g Hst Hq; [exact Hst|].
  simpl in *. pose proof (Update_sends_mono now e g) as H1.
  pose proof (Update_quiet_stamped t now e g Hst) as H2.
  unfold bind in *.
  destruct (Update MAX_PLAYERS host_order now e g) as [[] g1|u g1]; simpl in *.
  - pose proof (Frames_sends_mono rest g1) as H3.
    apply IH; [apply H2; lia | lia].
  - apply H2, Hq.
Qed.

End Spacing.

(** X19.  Input updates are more than 1/20 apart.  When a frame at time
    [t1] sends, any frames follow that send nothing, and then a frame at
    time [t2] sends, then [t2 - t1 > 1/20]: between two consecutive sends
    of a run of frames more than [InputUpdateInterval] passes on the
    clock the frames are given. *)
Theorem sends_are_spaced :
  forall MAX_PLAYERS host_order g t1 e1 frames t2 e2,
    let g1 := final (Update MAX_PLAYERS host_order t1 e1 g) in
    let g2 := final (Frames MAX_PLAYERS host_order frames g1) in
    let g3 := final (Update MAX_PLAYERS host_order t2 e2 g2) in
    sends (enet g1) <> sends (enet g) ->
    sends (enet g2) = sends (enet g1) ->
    sends (enet g3) <> sends (enet g2) ->
    (t2 - t1 > 1 # 20)%Q.
Proof.
  intros MAX_PLAYERS host_order g t1 e1 frames t2 e2 g1 g2 g3 H1 H2 H3.
  assert (Hst : stamped t1 g1).
  { destruct (Update_send_or_not MAX_PLAYERS host_order t1 e1 g)
      as [H|(_ & _ & Hl & Hj & _)]; [contradiction|].
    destruct Hj as [Hj|Hj]; [left; exact Hj | right; split; assumption]. }
  pose proof (Frames_quiet_stamped MAX_PLAYERS host_order t1 frames g1 Hst H2) as Hst2.
  fold g2 in Hst2.
  destruct (Update_send_or_not MAX_PLAYERS host_order t2 e2 g2)
    as [H|([_ Hd] & _ & _ & _ & peer & _ & _ & _ & Hp & _)]; [contradiction|].
  destruct Hst2 as [Hn|[_ Hl]]; [congruence|].
  rewrite Hl in Hd. exact Hd.
Qed.

(** ** Before anything is connected *)

(** X20.  In the initial state no player is known and nothing runs: every
    [GetPlayerPos] answers with no position, [Connected] answers false,
    [UpdateLocalPlayer] does nothing, and frames return at once, until
    [Connect] is called. *)
Theorem initially_idle :
  forall MAX_PLAYERS host_order,
    let g := Globals_init MAX_PLAYERS in
    (forall id, GetPlayerPos MAX_PLAYERS id g = Ok None g) /\
    Connected g = Ok false g /\
    (forall W H P movementDelta, UpdateLocalPlayer W H P movementDelta g = Ok tt g) /\
    (forall frames, Frames MAX_PLAYERS host_order frames g = Ok tt g).
Proof.
  intros MAX_PLAYERS host_order g. split; [|split; [reflexivity|split]].
  - intros id. unfold GetPlayerPos.
    destruct ((id <? 0) || (id >=? MAX_PLAYERS)) eqn:G; [reflexivity|].
    apply orb_false_iff in G as [G0 G1]. apply Z.ltb_ge in G0.
    rewrite Z.geb_leb in G1. apply Z.leb_gt in G1.
    assert (E : Players_at id g
                = Ok {| Active := false; Position := {| x := 0; y := 0 |} |} g).
    { unfold Players_at. rewrite (proj2 (Z.ltb_ge _ _) G0). simpl.
      rewrite lookup_replicate_2 by lia. reflexivity. }
    rewrite (bind_Ok _ _ _ _ _ E). reflexivity.
  - intros W H P movementDelta. reflexivity.
  - intros frames. induction frames as [|[t e] rest IH]; [reflexivity|].
    simpl. rewrite (bind_Ok _ _ _ _ _
                      (Update_disconnected MAX_PLAYERS host_order t e g eq_refl)).
    exact IH.
Qed.

(** ** The further properties at concrete inputs *)

Lemma ReadByte_returns_witness :
  ReadByte accept_3 1 connecting = Ok (3, 2) connecting /\
  0 <= 3 <= 255.
Proof.
  split; [reflexivity|].
  exact (proj1 (proj2 (ReadByte_returns accept_3 1 connecting 3 2 connecting eq_refl))).
Defined.

Lemma ReadShort_returns_witness :
  ReadShort LittleEndian add_4 4 connecting = Ok (-1, 6) connecting /\
  INT16_MIN <= -1 <= INT16_MAX.
Proof.
  split; [reflexivity|].
  exact (proj1 (proj2 (ReadShort_returns LittleEndian add_4 4 connecting (-1) 6 connecting
                         eq_refl))).
Defined.

Lemma ReadShort_reads_back_witness :
  data add_4 = [x02; x04; x10; x00] ++ bytes_of_int16 LittleEndian (-1) ++ [] /\
  ReadShort LittleEndian add_4 4 connecting = Ok (-1, 6) connecting.
Proof.
  split; [reflexivity|].
  apply (ReadShort_reads_back LittleEndian add_4 [x02; x04; x10; x00] (-1) [] connecting).
  - split; discriminate.
  - reflexivity.
Defined.

Lemma ReadPosition_defined_witness :
  (exists vx vy,
     INT16_MIN <= vx <= INT16_MAX /\ INT16_MIN <= vy <= INT16_MAX /\
     ReadPosition LittleEndian add_4 2 connecting
     = Ok ({| x := inject_Z vx; y := inject_Z vy |}, 2 + 4) connecting) /\
  ReadPosition LittleEndian add_4 3 connecting
  = Undefined (PacketOutOfBounds (dataLength add_4)) connecting.
Proof.
  pose proof (ReadPosition_defined LittleEndian add_4) as H.
  split.
  - apply (proj1 (H 2 connecting ltac:(discriminate) ltac:(discriminate))). discriminate.
  - apply (proj1 (proj2 (H 3 connecting ltac:(discriminate) ltac:(discriminate)))).
    split; [discriminate | reflexivity].
Defined.

Lemma GetPlayerPos_returns_witness :
  Players_sized 8 joined_3 /\
  exists r, GetPlayerPos 8 3 joined_3 = Ok r joined_3.
Proof.
  split; [reflexivity|].
  destruct (GetPlayerPos_returns 8 3 joined_3 eq_refl) as (r & E & _).
  exists r. exact E.
Defined.

Lemma AddPlayer_adds_witness :
  send_input LittleEndian 1%nat 0 joined_3 = Ok tt joined_3 /\
  Update 8 LittleEndian 0 (Some (ENET_EVENT_TYPE_RECEIVE add_4)) joined_3
  = Ok tt (add_call (enet_packet_destroy add_4)
             (with_slot 4 {| Active := true; Position := {| x := 16; y := -1 |} |} joined_3)).
Proof.
  split; [reflexivity|].
  exact (proj1 (AddPlayer_adds 8 LittleEndian 0 1%nat add_4 x04 16 (-1) [] joined_3 joined_3
                  empty_slot eq_refl eq_refl ltac:(discriminate) eq_refl
                  ltac:(split; discriminate) ltac:(split; discriminate)
                  eq_refl ltac:(discriminate) eq_refl)).
Defined.

Lemma RemovePlayer_removes_witness :
  Players joined_3 !! Z.to_nat 3 = Some spawn_slot /\
  GetPlayerPos 8 4
    (add_call (enet_packet_destroy remove_4)
       (with_slot 4 {| Active := false; Position := {| x := 0; y := 0 |} |} joined_3))
  = Ok None
      (add_call (enet_packet_destroy remove_4)
         (with_slot 4 {| Active := false; Position := {| x := 0; y := 0 |} |} joined_3)).
Proof.
  split; [reflexivity|].
  exact (proj1 (proj2 (RemovePlayer_removes 8 LittleEndian 0 1%nat remove_4 x04 [] joined_3
                         joined_3 empty_slot eq_refl eq_refl ltac:(discriminate) eq_refl
                         eq_refl ltac:(discriminate) eq_refl))).
Defined.

Lemma UpdatePlayer_moves_active_players_only_witness :
  Players joined_3 !! Z.to_nat 4 = Some empty_slot /\
  Update 8 LittleEndian 0 (Some (ENET_EVENT_TYPE_RECEIVE update_4)) joined_3
  = Ok tt (add_call (enet_packet_destroy update_4) joined_3).
Proof.
  split; [reflexivity|].
  exact (UpdatePlayer_moves_active_players_only 8 LittleEndian 0 1%nat update_4 x04 16 (-1) []
           joined_3 joined_3 empty_slot eq_refl eq_refl ltac:(discriminate) eq_refl
           ltac:(split; discriminate) ltac:(split; discriminate)
           eq_refl ltac:(discriminate) eq_refl).
Defined.

Lemma unjoined_ignores_other_commands_witness :
  LocalPlayerId connecting = -1 /\
  Update 8 LittleEndian 0 (Some (ENET_EVENT_TYPE_RECEIVE add_4)) connecting
  = Ok tt (add_call (enet_packet_destroy add_4) connecting).
Proof.
  split; [reflexivity|].
  exact (unjoined_ignores_other_commands 8 LittleEndian 0 1%nat add_4 x02 _ connecting
           eq_refl eq_refl eq_refl ltac:(discriminate)).
Defined.

Lemma joined_ignores_witness :
  send_input LittleEndian 1%nat 0 joined_3 = Ok tt joined_3 /\
  Update 8 LittleEndian 0 (Some (ENET_EVENT_TYPE_RECEIVE accept_4)) joined_3
  = Ok tt (add_call (enet_packet_destroy accept_4) joined_3).
Proof.
  split; [reflexivity|].
  apply (joined_ignores 8 LittleEndian 0 1%nat accept_4 x01 [x04] joined_3 joined_3);
    [reflexivity | reflexivity | discriminate | reflexivity |].
  left. repeat split; discriminate.
Defined.

Lemma Update_keeps_local_slot_witness :
  0 <= LocalPlayerId joined_3 /\
  Players (final (Update 8 LittleEndian 1 (Some (ENET_EVENT_TYPE_RECEIVE add_4)) joined_3))
    !! Z.to_nat (LocalPlayerId joined_3)
  = Players joined_3 !! Z.to_nat (LocalPlayerId joined_3).
Proof.
  split; [discriminate|].
  apply (Update_keeps_local_slot 8 LittleEndian 1 _ joined_3). discriminate.
Defined.

Lemma session_invariant_kept_witness :
  session_invariant 8 connecting /\
  session_invariant 8
    (final (Update 8 LittleEndian 0 (Some (ENET_EVENT_TYPE_RECEIVE accept_8)) connecting)).
Proof.
  assert (H : session_invariant 8 connecting) by (split; [reflexivity | left; reflexivity]).
  split; [exact H|].
  apply (proj1 (proj2 (session_invariant_kept 8 LittleEndian))). exact H.
Defined.

Lemma only_AcceptPlayer_connects_witness :
  Connected connecting = Ok false connecting /\
  LocalPlayerId connecting = -1.
Proof.
  split; [reflexivity|].
  exact (proj1 (only_AcceptPlayer_connects 8 LittleEndian 0
                  (Some (ENET_EVENT_TYPE_RECEIVE accept_3)) connecting eq_refl eq_refl)).
Defined.


Lemma Disconnect_keeps_the_id_witness :
  0 <= LocalPlayerId (globals joined_process) /\
  LocalPlayerId (globals (Connect (Some 8%nat) 1 (Some 2%nat) (Disconnect joined_process)))
  = 3.
Proof.
  split; [discriminate|].
  exact (proj1 (proj2 (Disconnect_keeps_the_id 8 LittleEndian (Some 8%nat) 1 2%nat
                         joined_process ltac:(discriminate)))).
Defined.

Lemma commands_cut_short_read_past_the_end_witness :
  send_input LittleEndian 1%nat 0 joined_3 = Ok tt joined_3 /\
  Update 8 LittleEndian 0 (Some (ENET_EVENT_TYPE_RECEIVE add_alone)) joined_3
  = Undefined (PacketOutOfBounds 1) joined_3.
Proof.
  split; [reflexivity|].
  apply (proj1 (commands_cut_short_read_past_the_end 8 LittleEndian 0 1%nat add_alone x02 []
                  joined_3 joined_3 eq_refl eq_refl ltac:(discriminate) eq_refl));
    [reflexivity | left; reflexivity].
Defined.

Lemma previous_player_stays_in_the_table_witness :
  Update 8 LittleEndian 0 (Some ENET_EVENT_TYPE_DISCONNECT) (globals joined_process)
    = Ok tt (set_LocalPlayerId (-1) (set_server None joined_3)) /\
  exists g3, LocalPlayerId g3 = 4 /\ GetPlayerPos 8 3 g3 = Ok (Some {| x := 100; y := 100 |}) g3.
Proof.
  split; [reflexivity|].
  destruct (previous_player_stays_in_the_table 8 LittleEndian 0 0 1%nat (Some 8%nat) 1 2%nat
              joined_process (set_LocalPlayerId (-1) (set_server None joined_3))
              accept_4 x04 [] spawn_slot
              eq_refl eq_refl ltac:(split; [discriminate | reflexivity]) eq_refl eq_refl
              eq_refl eq_refl eq_refl ltac:(discriminate))
    as (g3 & _ & Hid & Hpos).
  exists g3. split; [exact Hid | exact Hpos].
Defined.

Lemma sends_are_spaced_witness :
  sends (enet (final (Update 8 LittleEndian 1 None joined_3))) = 1%nat /\
  (2 - 1 > 1 # 20)%Q.
Proof.
  split; [reflexivity|].
  apply (sends_are_spaced 8 LittleEndian joined_3 1 None [] 2 None);
    [discriminate | reflexivity | discriminate].
Defined.
